(** * Memory::AllocatorStatistic — a shallow embedding and its properties

    The development follows [src/Memory/AllocatorStatistic.cpp] and the
    interface headers [BasicAllocator.hpp], [ObjectAllocator.hpp] and
    [AllocatorStatistic.hpp].

    - [size_t] and [uintmax_t] are 64-bit unsigned integers, held in [N];
      the wrap-around of [fetch_add] is written out with [wrap].
    - Pointers are addresses in [N]; [nullptr] is address 0.
    - The backing allocator is an abstract object: a state type [B] and one
      function per virtual member of [ObjectAllocator].  A member may return
      or throw; what it threw is kept so that a rethrow can be compared.
    - A member function of the proxy is a computation in a state-and-exception
      monad over the proxy object.  Unlike a transactional error monad, the
      state reached when an exception leaves a call is kept, as in C++.
    - The atomics are read under sequential execution: a compare-exchange
      loop entered with the value just loaded succeeds at its first attempt.
    - Calls through a null backing pointer are undefined behaviour and are not
      modelled: the proxy is the one built by the constructor that takes an
      [ObjectAllocator], whose two backing pointers name the same allocator. *)

From Stdlib Require Import NArith List Lia Bool.
Import ListNotations.
Open Scope N_scope.

(** ** Machine integers *)

Definition modulus : N := 18446744073709551616.

(** [std::numeric_limits<size_t>::max()] *)
Definition SIZE_MAX : N := 18446744073709551615.

Definition wrap (z : N) : N := z mod modulus.
Arguments wrap : simpl never.

Definition ptr := N.
Definition nullptr : ptr := 0.

(** Identity of a thrown exception object. *)
Definition exception := N.

(** Identity of a [DestructorPtr]. *)
Definition DestructorPtr := N.

(** ** The counter set of the proxy *)

Record Counters := mkCounters {
  m_smallest : N;            (* Smallest allocation done in size *)
  m_largest : N;             (* Largest allocation done in size *)
  m_highest : N;             (* Highest reported total usage *)
  m_allocC : N;              (* Total allocation call count *)
  m_alloc_failC : N;         (* Total allocation call fail count *)
  m_alloc_largest_fail : N;  (* Largest allocation that failed *)
  m_allocB : N;              (* Total allocated bytes during lifetime *)
  m_reallocC : N;            (* Total reallocation call count *)
  m_realloc_failC : N;       (* Total reallocation call fail count *)
  m_realloc_growthB : N;     (* Total allocation size growth *)
  m_realloc_shrinkB : N;     (* Total allocation size shrink *)
  m_realloc_moveC : N;       (* Number of times when allocation got moved *)
  m_realloc_moveB : N;       (* Total amount of bytes that had to be moved *)
  m_offerC : N;              (* Total offers *)
  m_offerB : N;              (* Total offered bytes *)
  m_reclaimC : N;            (* Total reclaims *)
  m_reclaim_failC : N;       (* Total failed reclaims *)
  m_reclaimB : N             (* Total reclaimed bytes *)
}.

(** The name of one atomic member, for [load], [store] and the
    read-modify-write operations. *)
Inductive Field :=
| smallest | largest | highest
| allocC | alloc_failC | alloc_largest_fail | allocB
| reallocC | realloc_failC | realloc_growthB | realloc_shrinkB
| realloc_moveC | realloc_moveB
| offerC | offerB | reclaimC | reclaim_failC | reclaimB.

Definition load (f : Field) (c : Counters) : N :=
  match f with
  | smallest => m_smallest c
  | largest => m_largest c
  | highest => m_highest c
  | allocC => m_allocC c
  | alloc_failC => m_alloc_failC c
  | alloc_largest_fail => m_alloc_largest_fail c
  | allocB => m_allocB c
  | reallocC => m_reallocC c
  | realloc_failC => m_realloc_failC c
  | realloc_growthB => m_realloc_growthB c
  | realloc_shrinkB => m_realloc_shrinkB c
  | realloc_moveC => m_realloc_moveC c
  | realloc_moveB => m_realloc_moveB c
  | offerC => m_offerC c
  | offerB => m_offerB c
  | reclaimC => m_reclaimC c
  | reclaim_failC => m_reclaim_failC c
  | reclaimB => m_reclaimB c
  end.

Arguments load : simpl never.

Definition store (f : Field) (v : N) (c : Counters) : Counters :=
  let '(mkCounters a1 a2 a3 a4 a5 a6 a7 a8 a9 a10 a11 a12 a13 a14 a15 a16 a17 a18) := c in
  match f with
  | smallest => mkCounters v a2 a3 a4 a5 a6 a7 a8 a9 a10 a11 a12 a13 a14 a15 a16 a17 a18
  | largest => mkCounters a1 v a3 a4 a5 a6 a7 a8 a9 a10 a11 a12 a13 a14 a15 a16 a17 a18
  | highest => mkCounters a1 a2 v a4 a5 a6 a7 a8 a9 a10 a11 a12 a13 a14 a15 a16 a17 a18
  | allocC => mkCounters a1 a2 a3 v a5 a6 a7 a8 a9 a10 a11 a12 a13 a14 a15 a16 a17 a18
  | alloc_failC => mkCounters a1 a2 a3 a4 v a6 a7 a8 a9 a10 a11 a12 a13 a14 a15 a16 a17 a18
  | alloc_largest_fail => mkCounters a1 a2 a3 a4 a5 v a7 a8 a9 a10 a11 a12 a13 a14 a15 a16 a17 a18
  | allocB => mkCounters a1 a2 a3 a4 a5 a6 v a8 a9 a10 a11 a12 a13 a14 a15 a16 a17 a18
  | reallocC => mkCounters a1 a2 a3 a4 a5 a6 a7 v a9 a10 a11 a12 a13 a14 a15 a16 a17 a18
  | realloc_failC => mkCounters a1 a2 a3 a4 a5 a6 a7 a8 v a10 a11 a12 a13 a14 a15 a16 a17 a18
  | realloc_growthB => mkCounters a1 a2 a3 a4 a5 a6 a7 a8 a9 v a11 a12 a13 a14 a15 a16 a17 a18
  | realloc_shrinkB => mkCounters a1 a2 a3 a4 a5 a6 a7 a8 a9 a10 v a12 a13 a14 a15 a16 a17 a18
  | realloc_moveC => mkCounters a1 a2 a3 a4 a5 a6 a7 a8 a9 a10 a11 v a13 a14 a15 a16 a17 a18
  | realloc_moveB => mkCounters a1 a2 a3 a4 a5 a6 a7 a8 a9 a10 a11 a12 v a14 a15 a16 a17 a18
  | offerC => mkCounters a1 a2 a3 a4 a5 a6 a7 a8 a9 a10 a11 a12 a13 v a15 a16 a17 a18
  | offerB => mkCounters a1 a2 a3 a4 a5 a6 a7 a8 a9 a10 a11 a12 a13 a14 v a16 a17 a18
  | reclaimC => mkCounters a1 a2 a3 a4 a5 a6 a7 a8 a9 a10 a11 a12 a13 a14 a15 v a17 a18
  | reclaim_failC => mkCounters a1 a2 a3 a4 a5 a6 a7 a8 a9 a10 a11 a12 a13 a14 a15 a16 v a18
  | reclaimB => mkCounters a1 a2 a3 a4 a5 a6 a7 a8 a9 a10 a11 a12 a13 a14 a15 a16 a17 v
  end.

Definition Field_eqb (f g : Field) : bool :=
  match f, g with
  | smallest, smallest | largest, largest | highest, highest
  | allocC, allocC | alloc_failC, alloc_failC
  | alloc_largest_fail, alloc_largest_fail | allocB, allocB
  | reallocC, reallocC | realloc_failC, realloc_failC
  | realloc_growthB, realloc_growthB | realloc_shrinkB, realloc_shrinkB
  | realloc_moveC, realloc_moveC | realloc_moveB, realloc_moveB
  | offerC, offerC | offerB, offerB | reclaimC, reclaimC
  | reclaim_failC, reclaim_failC | reclaimB, reclaimB => true
  | _, _ => false
  end.

(** The member initialiser list of the default constructor; also the values
    [resetCounters] assigns. *)
Definition zeroed : Counters :=
  mkCounters SIZE_MAX 0 0 0 0 0 0 0 0 0 0 0 0 0 0 0 0 0.

(** ** What the atomic read-modify-write operations leave in a member *)

(** After [member.fetch_add(k)]: the sum, modulo 2^64. *)
Definition added (f : Field) (k : N) (c : Counters) : Counters :=
  store f (wrap (load f c + k)) c.

(** After the loop
    [expected = member.load();
     while (expected < v) if (member.compare_exchange_weak(expected, v)) break;]
    the member holds [v] if it was below [v], and what it held otherwise. *)
Definition raised (f : Field) (v : N) (c : Counters) : Counters :=
  let expected := load f c in
  if expected <? v then store f v c else c.

(** After the same loop with [expected > v]. *)
Definition lowered (f : Field) (v : N) (c : Counters) : Counters :=
  let expected := load f c in
  if v <? expected then store f v c else c.

(** ** Statistic API: the read accessors *)

Definition getHighestUsage (c : Counters) : N := load highest c.

Definition getSmallestAlloc (c : Counters) : N :=
  let ret := load smallest c in
  if negb (ret =? SIZE_MAX) then ret else 0.

Definition getLargestAlloc (c : Counters) : N := load largest c.
Definition getTotalAllocs (c : Counters) : N := load allocC c.
Definition getTotalAllocFails (c : Counters) : N := load alloc_failC c.
Definition getLargestAllocFailed (c : Counters) : N := load alloc_largest_fail c.
Definition getTotalAllocBytes (c : Counters) : N := load allocB c.
Definition getTotalReallocs (c : Counters) : N := load reallocC c.
Definition getTotalReallocFails (c : Counters) : N := load realloc_failC c.
Definition getTotalReallocGrowth (c : Counters) : N := load realloc_growthB c.
Definition getTotalReallocShrink (c : Counters) : N := load realloc_shrinkB c.
Definition getTotalReallocMoves (c : Counters) : N := load realloc_moveC c.
Definition getTotalReallocMoved (c : Counters) : N := load realloc_moveB c.
Definition getTotalOffers (c : Counters) : N := load offerC c.
Definition getTotalOfferBytes (c : Counters) : N := load offerB c.
Definition getTotalReclaims (c : Counters) : N := load reclaimC c.
Definition getTotalReclaimFails (c : Counters) : N := load reclaim_failC c.
Definition getTotalReclaimBytes (c : Counters) : N := load reclaimB c.

(** The eighteen accessors, indexed by the member each one reads. *)
Definition read (f : Field) (c : Counters) : N :=
  match f with
  | smallest => getSmallestAlloc c
  | largest => getLargestAlloc c
  | highest => getHighestUsage c
  | allocC => getTotalAllocs c
  | alloc_failC => getTotalAllocFails c
  | alloc_largest_fail => getLargestAllocFailed c
  | allocB => getTotalAllocBytes c
  | reallocC => getTotalReallocs c
  | realloc_failC => getTotalReallocFails c
  | realloc_growthB => getTotalReallocGrowth c
  | realloc_shrinkB => getTotalReallocShrink c
  | realloc_moveC => getTotalReallocMoves c
  | realloc_moveB => getTotalReallocMoved c
  | offerC => getTotalOffers c
  | offerB => getTotalOfferBytes c
  | reclaimC => getTotalReclaims c
  | reclaim_failC => getTotalReclaimFails c
  | reclaimB => getTotalReclaimBytes c
  end.

(** ** The backing allocator *)

Inductive outcome (A : Type) :=
| Ret (a : A)
| Raise (e : exception).
Arguments Ret {A} a.
Arguments Raise {A} e.

(** The virtual members of [BasicAllocator] and [ObjectAllocator].  A
    [const] member reads the allocator and leaves it as it is. *)
Record ObjectAllocator (B : Type) := {
  backing_alloc : N -> N -> B -> outcome ptr * B;
  backing_alloc_destructor : N -> DestructorPtr -> N -> B -> outcome ptr * B;
  backing_free : ptr -> B -> outcome unit * B;
  backing_realloc : ptr -> N -> N -> B -> outcome ptr * B;
  backing_realloc_destructor : ptr -> N -> DestructorPtr -> N -> B -> outcome ptr * B;
  backing_getAllocSize : ptr -> B -> outcome N;
  backing_offer : ptr -> N -> B -> outcome ptr * B;
  backing_reclaim : ptr -> B -> outcome ptr * B;
  backing_reset : B -> outcome unit * B;
  backing_purge : N -> B -> outcome unit * B;
  backing_clear : B -> outcome unit * B;
  backing_getFreeBytes : B -> outcome N;
  backing_getUsedBytes : B -> outcome N;
  backing_getPendingBytes : B -> outcome N;
  backing_getTotalBytes : B -> outcome N
}.
Arguments backing_alloc {B}.
Arguments backing_alloc_destructor {B}.
Arguments backing_free {B}.
Arguments backing_realloc {B}.
Arguments backing_realloc_destructor {B}.
Arguments backing_getAllocSize {B}.
Arguments backing_offer {B}.
Arguments backing_reclaim {B}.
Arguments backing_reset {B}.
Arguments backing_purge {B}.
Arguments backing_clear {B}.
Arguments backing_getFreeBytes {B}.
Arguments backing_getUsedBytes {B}.
Arguments backing_getPendingBytes {B}.
Arguments backing_getTotalBytes {B}.

(** One delegated call, as the backing allocator receives it. *)
Inductive Call :=
| CallAlloc (bytes align : N)
| CallAllocDestructor (bytes : N) (destructor : DestructorPtr) (align : N)
| CallFree (p : ptr)
| CallRealloc (p : ptr) (bytes align : N)
| CallReallocDestructor (p : ptr) (bytes : N) (destructor : DestructorPtr) (align : N)
| CallGetAllocSize (p : ptr)
| CallOffer (p : ptr) (priority : N)
| CallReclaim (p : ptr)
| CallReset
| CallPurge (priority : N)
| CallClear
| CallGetFreeBytes
| CallGetUsedBytes
| CallGetPendingBytes
| CallGetTotalBytes.

(** ** The proxy object

    [stats] are the atomic members and [backing] the allocator the backing
    pointers name.  Two history variables serve the statements only and are
    never read by a member function: [calls] lists the delegated calls in
    order, and [wrapped] records that some [fetch_add] exceeded [SIZE_MAX]
    and wrapped around. *)
Record Proxy (B : Type) := mkProxy {
  stats : Counters;
  backing : B;
  calls : list Call;
  wrapped : bool
}.
Arguments mkProxy {B}.
Arguments stats {B}.
Arguments backing {B}.
Arguments calls {B}.
Arguments wrapped {B}.

(** [AllocatorStatistic(ObjectAllocator* backing)] *)
Definition AllocatorStatistic {B : Type} (b : B) : Proxy B :=
  mkProxy zeroed b [] false.

(** ** Member functions as computations *)

Definition M (B A : Type) : Type := Proxy B -> outcome A * Proxy B.

Definition ret {B A} (a : A) : M B A := fun s => (Ret a, s).

Definition bind {B A A'} (m : M B A) (k : A -> M B A') : M B A' :=
  fun s =>
    match m s with
    | (Ret a, s') => k a s'
    | (Raise e, s') => (Raise e, s')
    end.

(** [std::rethrow_exception(eptr)] *)
Definition rethrow_exception {B A} (eptr : exception) : M B A :=
  fun s => (Raise eptr, s).

(** [try { body } catch (...) { handler }], the handler receiving
    [std::current_exception()]. *)
Definition try_catch {B A} (body : M B A) (handler : exception -> M B A) : M B A :=
  fun s =>
    match body s with
    | (Ret a, s') => (Ret a, s')
    | (Raise e, s') => handler e s'
    end.

Declare Scope proxy_scope.
Delimit Scope proxy_scope with proxy.
Notation "x <- m ;; k" := (bind m (fun x => k))
  (at level 61, m at next level, right associativity) : proxy_scope.
Notation "m ;; k" := (bind m (fun _ => k))
  (at level 61, right associativity) : proxy_scope.
Open Scope proxy_scope.

Section AllocatorStatistic.

Context {B : Type}.
Variable bk : ObjectAllocator B.

(** *** Atomic members *)

(** [member.fetch_add(k)] *)
Definition fetch_add (f : Field) (k : N) : M B unit :=
  fun s =>
    (Ret tt,
     mkProxy (added f k (stats s)) (backing s) (calls s)
             (wrapped s || (SIZE_MAX <? load f (stats s) + k))).

(** [expected = member.load();
     while (expected < v) if (member.compare_exchange_weak(expected, v)) break;] *)
Definition raise_to (f : Field) (v : N) : M B unit :=
  fun s => (Ret tt, mkProxy (raised f v (stats s)) (backing s) (calls s) (wrapped s)).

(** [expected = member.load();
     while (expected > v) if (member.compare_exchange_weak(expected, v)) break;] *)
Definition lower_to (f : Field) (v : N) : M B unit :=
  fun s => (Ret tt, mkProxy (lowered f v (stats s)) (backing s) (calls s) (wrapped s)).

(** *** Delegation *)

Definition delegate {A} (c : Call) (f : B -> outcome A * B) : M B A :=
  fun s =>
    let '(r, b') := f (backing s) in
    (r, mkProxy (stats s) b' (calls s ++ [c]) (wrapped s)).

Definition delegate_const {A} (c : Call) (f : B -> outcome A) : M B A :=
  fun s =>
    (f (backing s), mkProxy (stats s) (backing s) (calls s ++ [c]) (wrapped s)).

(** *** Statistic API *)

Definition resetCounters : M B unit :=
  fun s => (Ret tt, mkProxy zeroed (backing s) (calls s) (wrapped s)).

(** *** Wrapped ObjectAllocator API *)

Definition getAllocSize (p : ptr) : M B N :=
  delegate_const (CallGetAllocSize p) (backing_getAllocSize bk p).

Definition getFreeBytes : M B N :=
  delegate_const CallGetFreeBytes (backing_getFreeBytes bk).

Definition getUsedBytes : M B N :=
  delegate_const CallGetUsedBytes (backing_getUsedBytes bk).

Definition getPendingBytes : M B N :=
  delegate_const CallGetPendingBytes (backing_getPendingBytes bk).

Definition getTotalBytes : M B N :=
  delegate_const CallGetTotalBytes (backing_getTotalBytes bk).

(** The two [alloc] overloads have the same text but for the call they
    delegate; [alloc_via] is that text with the call left open. *)
Definition alloc_via (backing_call : M B ptr) (bytes : N) : M B ptr :=
  fetch_add allocC 1 ;;
  try_catch
    (ret_ <- backing_call ;;
     current_use <- getUsedBytes ;;
     (if negb (ret_ =? nullptr)
      then
        fetch_add allocB bytes ;;
        raise_to largest bytes ;;
        lower_to smallest bytes ;;
        raise_to highest current_use
      else
        fetch_add alloc_failC 1 ;;
        raise_to alloc_largest_fail bytes) ;;
     ret ret_)
    (fun eptr =>
       fetch_add alloc_failC 1 ;;
       raise_to alloc_largest_fail bytes ;;
       rethrow_exception eptr).

(** [void* alloc(size_t bytes, size_t align)] *)
Definition alloc (bytes align : N) : M B ptr :=
  alloc_via (delegate (CallAlloc bytes align) (backing_alloc bk bytes align)) bytes.

(** [void* alloc(size_t bytes, DestructorPtr destructor, size_t align)] *)
Definition alloc_destructor (bytes : N) (destructor : DestructorPtr) (align : N) : M B ptr :=
  alloc_via (delegate (CallAllocDestructor bytes destructor align)
                      (backing_alloc_destructor bk bytes destructor align)) bytes.

(** [void free(void* ptr)] *)
Definition free (p : ptr) : M B unit :=
  delegate (CallFree p) (backing_free bk p).

(** The shared text of the two [realloc] overloads. *)
Definition realloc_via (backing_call : M B ptr) (p : ptr) (bytes : N) : M B ptr :=
  fetch_add reallocC 1 ;;
  try_catch
    (last_size <- getAllocSize p ;;
     ret_ <- backing_call ;;
     current_use <- getUsedBytes ;;
     (if negb (ret_ =? nullptr)
      then
        fetch_add allocB bytes ;;
        raise_to largest bytes ;;
        lower_to smallest bytes ;;
        raise_to highest current_use ;;
        (if negb (ret_ =? p)
         then
           fetch_add realloc_moveC 1 ;;
           fetch_add realloc_moveB bytes
         else ret tt) ;;
        (if bytes <? last_size
         then fetch_add realloc_shrinkB (last_size - bytes)
         else if last_size <? bytes
              then fetch_add realloc_growthB (bytes - last_size)
              else ret tt)
      else
        fetch_add realloc_failC 1 ;;
        raise_to alloc_largest_fail bytes) ;;
     ret ret_)
    (fun eptr =>
       fetch_add realloc_failC 1 ;;
       raise_to alloc_largest_fail bytes ;;
       rethrow_exception eptr).

(** [void* realloc(void* ptr, size_t bytes, size_t align)] *)
Definition realloc (p : ptr) (bytes align : N) : M B ptr :=
  realloc_via (delegate (CallRealloc p bytes align) (backing_realloc bk p bytes align))
              p bytes.

(** [void* realloc(void* ptr, size_t bytes, DestructorPtr destructor, size_t align)] *)
Definition realloc_destructor (p : ptr) (bytes : N) (destructor : DestructorPtr)
           (align : N) : M B ptr :=
  realloc_via (delegate (CallReallocDestructor p bytes destructor align)
                        (backing_realloc_destructor bk p bytes destructor align))
              p bytes.

(** [void* offer(void* ptr, uint32_t priority)] *)
Definition offer (p : ptr) (priority : N) : M B ptr :=
  fetch_add offerC 1 ;;
  size <- getAllocSize p ;;
  fetch_add offerB size ;;
  ret_ <- delegate (CallOffer p priority) (backing_offer bk p priority) ;;
  ret ret_.

(** [void* reclaim(void* ptr)] *)
Definition reclaim (p : ptr) : M B ptr :=
  fetch_add reclaimC 1 ;;
  ret_ <- delegate (CallReclaim p) (backing_reclaim bk p) ;;
  (if ret_ =? nullptr
   then fetch_add reclaim_failC 1
   else
     size <- getAllocSize p ;;
     fetch_add reclaimB size) ;;
  ret ret_.

(** [void reset()] *)
Definition reset : M B unit :=
  resetCounters ;;
  delegate CallReset (backing_reset bk).

(** [void purge(uint32_t priority)] *)
Definition purge (priority : N) : M B unit :=
  delegate (CallPurge priority) (backing_purge bk priority).

(** [void clear()] *)
Definition clear : M B unit :=
  resetCounters ;;
  delegate CallClear (backing_clear bk).

End AllocatorStatistic.

Arguments fetch_add {B}.
Arguments raise_to {B}.
Arguments lower_to {B}.
Arguments delegate {B A}.
Arguments delegate_const {B A}.
Arguments resetCounters {B}.

(** ** Calls and call sequences *)

(** Overload resolution of [alloc] and [realloc]: with or without a
    [DestructorPtr] argument. *)
Definition alloc_overload {B} (bk : ObjectAllocator B) (bytes : N)
           (destructor : option DestructorPtr) (align : N) : M B ptr :=
  match destructor with
  | None => alloc bk bytes align
  | Some d => alloc_destructor bk bytes d align
  end.

Definition realloc_overload {B} (bk : ObjectAllocator B) (p : ptr) (bytes : N)
           (destructor : option DestructorPtr) (align : N) : M B ptr :=
  match destructor with
  | None => realloc bk p bytes align
  | Some d => realloc_destructor bk p bytes d align
  end.

(** What the backing allocator answers to the call an [alloc] overload
    delegates. *)
Definition backing_alloc_overload {B} (bk : ObjectAllocator B) (bytes : N)
           (destructor : option DestructorPtr) (align : N) : B -> outcome ptr * B :=
  match destructor with
  | None => backing_alloc bk bytes align
  | Some d => backing_alloc_destructor bk bytes d align
  end.

(** One call of a member function of the proxy by its user. *)
Inductive Op :=
| OpAlloc (bytes : N) (destructor : option DestructorPtr) (align : N)
| OpFree (p : ptr)
| OpRealloc (p : ptr) (bytes : N) (destructor : option DestructorPtr) (align : N)
| OpGetAllocSize (p : ptr)
| OpOffer (p : ptr) (priority : N)
| OpReclaim (p : ptr)
| OpReset
| OpPurge (priority : N)
| OpClear
| OpGetFreeBytes
| OpGetUsedBytes
| OpGetPendingBytes
| OpGetTotalBytes
| OpResetCounters.

(** The proxy object a call leaves behind, whether it returned or threw. *)
Definition effect {B A} (m : M B A) (s : Proxy B) : Proxy B := snd (m s).

Definition exec {B} (bk : ObjectAllocator B) (op : Op) (s : Proxy B) : Proxy B :=
  match op with
  | OpAlloc bytes d align => effect (alloc_overload bk bytes d align) s
  | OpFree p => effect (free bk p) s
  | OpRealloc p bytes d align => effect (realloc_overload bk p bytes d align) s
  | OpGetAllocSize p => effect (getAllocSize bk p) s
  | OpOffer p priority => effect (offer bk p priority) s
  | OpReclaim p => effect (reclaim bk p) s
  | OpReset => effect (reset bk) s
  | OpPurge priority => effect (purge bk priority) s
  | OpClear => effect (clear bk) s
  | OpGetFreeBytes => effect (getFreeBytes bk) s
  | OpGetUsedBytes => effect (getUsedBytes bk) s
  | OpGetPendingBytes => effect (getPendingBytes bk) s
  | OpGetTotalBytes => effect (getTotalBytes bk) s
  | OpResetCounters => effect resetCounters s
  end.

(** A workload: the calls one after the other; a caller that catches an
    exception goes on with the next call. *)
Definition run {B} (bk : ObjectAllocator B) (ops : list Op) (s : Proxy B) : Proxy B :=
  fold_left (fun s op => exec bk op s) ops s.

(** The three calls that execute [resetCounters]. *)
Definition resets (op : Op) : bool :=
  match op with
  | OpReset | OpClear | OpResetCounters => true
  | _ => false
  end.

(** A request to [alloc]: size, optional destructor, alignment. *)
Definition AllocRequest : Type := N * option DestructorPtr * N.

Definition requested (rq : AllocRequest) : N := fst (fst rq).

Definition alloc_request {B} (bk : ObjectAllocator B) (rq : AllocRequest) : M B ptr :=
  let '(bytes, d, align) := rq in alloc_overload bk bytes d align.

(** A sequence of [alloc] calls, with what each one gave its caller. *)
Fixpoint alloc_calls {B} (bk : ObjectAllocator B) (rqs : list AllocRequest)
         (s : Proxy B) : list (outcome ptr) * Proxy B :=
  match rqs with
  | [] => ([], s)
  | rq :: rest =>
      let '(o, s1) := alloc_request bk rq s in
      let '(os, s2) := alloc_calls bk rest s1 in
      (o :: os, s2)
  end.

(** A call succeeded when it returned a pointer other than [nullptr]. *)
Definition succeeded (o : outcome ptr) : bool :=
  match o with
  | Ret p => negb (p =? nullptr)
  | Raise _ => false
  end.

Definition successes (os : list (outcome ptr)) : N :=
  N.of_nat (length (filter succeeded os)).

Definition failures (os : list (outcome ptr)) : N :=
  N.of_nat (length (filter (fun o => negb (succeeded o)) os)).

(** The greatest element; 0 for an empty list. *)
Definition maximum (l : list N) : N := fold_right N.max 0 l.

(** The least element; an empty list has none. *)
Fixpoint minimum (l : list N) : option N :=
  match l with
  | [] => None
  | x :: rest =>
      match minimum rest with
      | None => Some x
      | Some m => Some (N.min x m)
      end
  end.

(** ** Relations between the proxy before and after a call *)

(** [keeps R m]: whatever [m] returns or throws, the proxy it leaves is
    related by [R] to the proxy it found. *)
Definition keeps {B A} (R : Proxy B -> Proxy B -> Prop) (m : M B A) : Prop :=
  forall s, R s (effect m s).

(** A member is a running minimum ([m_smallest]), a running maximum, or a
    running sum. *)
Inductive Kind := Minimum | Maximum | Sum.

Definition kind_of (f : Field) : Kind :=
  match f with
  | smallest => Minimum
  | largest | highest | alloc_largest_fail => Maximum
  | _ => Sum
  end.

(** [advances s s']: from [s] to [s'] the minimum has not risen, no maximum
    has fallen and, when no [fetch_add] has wrapped around up to [s'], no sum
    has fallen. *)
Definition advances {B} (s s' : Proxy B) : Prop :=
  (forall f, kind_of f = Minimum -> load f (stats s') <= load f (stats s)) /\
  (forall f, kind_of f = Maximum -> load f (stats s) <= load f (stats s')) /\
  (wrapped s' = false ->
   wrapped s = false /\
   forall f, kind_of f = Sum -> load f (stats s) <= load f (stats s')).

(** ** The counters a call leaves, by outcome

    These restate the branches of [alloc] and [realloc] as functions of the
    counters; the lemmas [alloc_via_cases] and [realloc_via_success] below
    prove that the member functions compute them. *)

Definition alloc_succeeded (bytes current_use : N) (c : Counters) : Counters :=
  raised highest current_use
    (lowered smallest bytes (raised largest bytes (added allocB bytes (added allocC 1 c)))).

Definition alloc_failed (bytes : N) (c : Counters) : Counters :=
  raised alloc_largest_fail bytes (added alloc_failC 1 (added allocC 1 c)).

Definition realloc_succeeded (p ret_ : ptr) (bytes last_size current_use : N)
           (c : Counters) : Counters :=
  let c1 := raised highest current_use
              (lowered smallest bytes
                 (raised largest bytes (added allocB bytes (added reallocC 1 c)))) in
  let c2 := if negb (ret_ =? p)
            then added realloc_moveB bytes (added realloc_moveC 1 c1)
            else c1 in
  if bytes <? last_size then added realloc_shrinkB (last_size - bytes) c2
  else if last_size <? bytes then added realloc_growthB (bytes - last_size) c2
       else c2.

(** ** A test double for the backing allocator

    [Pool] is a small bookkeeping allocator used to run the proxy on concrete
    inputs.  It hands out addresses from a cursor, grants a request while the
    live bytes stay within a budget, shrinks in place and moves a block that
    grows, and parks an offered block under an offer pointer of its own (the
    block's address plus one) until it is reclaimed, freed or purged.  A
    request with alignment 0 makes it throw. *)
Module Pool.

Record state := mkState {
  blocks : list (ptr * N);          (* live blocks: address and usable size *)
  parked : list (ptr * (ptr * N));  (* offer pointer, and the block it stands for *)
  cursor : ptr;                     (* next address to hand out *)
  budget : N                        (* bytes the pool may have live *)
}.

Definition invalid_argument : exception := 22.

Fixpoint lookup {V} (k : ptr) (l : list (ptr * V)) : option V :=
  match l with
  | [] => None
  | (k', v) :: rest => if k' =? k then Some v else lookup k rest
  end.

Definition remove {V} (k : ptr) (l : list (ptr * V)) : list (ptr * V) :=
  filter (fun kv => negb (fst kv =? k)) l.

Definition used (st : state) : N :=
  fold_right (fun kv acc => snd kv + acc) 0 (blocks st).

Definition pending (st : state) : N :=
  fold_right (fun kv acc => snd (snd kv) + acc) 0 (parked st).

Definition pool_alloc (bytes align : N) (st : state) : outcome ptr * state :=
  if align =? 0 then (Raise invalid_argument, st)
  else if used st + bytes <=? budget st
       then (Ret (cursor st),
             mkState ((cursor st, bytes) :: blocks st) (parked st)
                     (cursor st + 16) (budget st))
       else (Ret nullptr, st).

Definition pool_free (p : ptr) (st : state) : outcome unit * state :=
  (Ret tt, mkState (remove p (blocks st)) (remove p (parked st)) (cursor st) (budget st)).

Definition pool_realloc (p : ptr) (bytes align : N) (st : state) : outcome ptr * state :=
  if align =? 0 then (Raise invalid_argument, st)
  else
    match lookup p (blocks st) with
    | None => (Ret nullptr, st)
    | Some old =>
        if bytes <=? old
        then (Ret p, mkState ((p, bytes) :: remove p (blocks st)) (parked st)
                             (cursor st) (budget st))
        else if used st - old + bytes <=? budget st
             then (Ret (cursor st),
                   mkState ((cursor st, bytes) :: remove p (blocks st)) (parked st)
                           (cursor st + 16) (budget st))
             else (Ret nullptr, st)
    end.

Definition pool_getAllocSize (p : ptr) (st : state) : outcome N :=
  match lookup p (blocks st) with
  | Some size => Ret size
  | None => Ret 0
  end.

Definition pool_offer (p : ptr) (priority : N) (st : state) : outcome ptr * state :=
  match lookup p (blocks st) with
  | None => (Ret nullptr, st)
  | Some size =>
      (Ret (p + 1),
       mkState (remove p (blocks st)) ((p + 1, (p, size)) :: parked st)
               (cursor st) (budget st))
  end.

Definition pool_reclaim (token : ptr) (st : state) : outcome ptr * state :=
  match lookup token (parked st) with
  | None => (Ret nullptr, st)
  | Some (p, size) =>
      (Ret p,
       mkState ((p, size) :: blocks st) (remove token (parked st))
               (cursor st) (budget st))
  end.

Definition pool_reset (st : state) : outcome unit * state :=
  (Ret tt, mkState [] [] (cursor st) (budget st)).

Definition pool_purge (priority : N) (st : state) : outcome unit * state :=
  (Ret tt, mkState (blocks st) [] (cursor st) (budget st)).

Definition allocator : ObjectAllocator state := {|
  backing_alloc := pool_alloc;
  backing_alloc_destructor := fun bytes _ align => pool_alloc bytes align;
  backing_free := pool_free;
  backing_realloc := pool_realloc;
  backing_realloc_destructor := fun p bytes _ align => pool_realloc p bytes align;
  backing_getAllocSize := pool_getAllocSize;
  backing_offer := pool_offer;
  backing_reclaim := pool_reclaim;
  backing_reset := pool_reset;
  backing_purge := pool_purge;
  backing_clear := pool_reset;
  backing_getFreeBytes := fun st => Ret (budget st - used st);
  backing_getUsedBytes := fun st => Ret (used st);
  backing_getPendingBytes := fun st => Ret (pending st);
  backing_getTotalBytes := fun st => Ret (budget st)
|}.

(** An empty pool with the given budget; addresses start at 4096. *)
Definition empty (budget : N) : state := mkState [] [] 4096 budget.

End Pool.

(** ** Concrete runs on the test double *)

Module Run.

Definition P : ObjectAllocator Pool.state := Pool.allocator.

(** A new proxy over an empty pool of 1024 bytes. *)
Definition new_proxy : Proxy Pool.state := AllocatorStatistic (Pool.empty 1024).

(** After [alloc(64, 16)], which returns 4096. *)
Definition one_block : Proxy Pool.state := effect (alloc P 64 16) new_proxy.

(** After [offer(4096, 0)], which returns the offer pointer 4097. *)
Definition offered : Proxy Pool.state := effect (offer P 4096 0) one_block.

(** After [reclaim(4097)], which returns the block 4096 again. *)
Definition reclaimed : Proxy Pool.state := effect (reclaim P 4097) offered.

(** A new proxy over a pool that may hold [SIZE_MAX] bytes. *)
Definition vast_proxy : Proxy Pool.state := AllocatorStatistic (Pool.empty SIZE_MAX).

(** Three [alloc] calls: one granted, one refused (over budget), one on
    which the pool throws (alignment 0). *)
Definition mixed_requests : list AllocRequest :=
  [(64, None, 16); (2000, None, 16); (8, Some 3, 0)].

(** Two [alloc] calls, both granted. *)
Definition granted_requests : list AllocRequest :=
  [(64, None, 16); (32, Some 3, 16)].

(** A workload without a reset. *)
Definition workload : list Op :=
  [OpAlloc 32 None 16; OpAlloc 16 None 16; OpRealloc 4096 48 None 16;
   OpOffer 4112 0; OpPurge 0; OpReclaim 4113; OpAlloc 2000 None 16; OpFree 4128].

End Run.

(** ** Further definitions: the calls seen from outside *)

(** The counters a failed [realloc] leaves (a null result or an exception);
    the lemmas [realloc_via_refused] and [realloc_via_threw] below prove
    that the member function computes them. *)
Definition realloc_failed (bytes : N) (c : Counters) : Counters :=
  raised alloc_largest_fail bytes (added realloc_failC 1 (added reallocC 1 c)).

(** What a call gives its caller: a pointer, nothing, or a size; returned
    or thrown. *)
Inductive Answer :=
| Pointer (o : outcome ptr)
| Done (o : outcome unit)
| Size (o : outcome N).

(** A call on the proxy, with its answer. *)
Definition call {B} (bk : ObjectAllocator B) (op : Op) (s : Proxy B) : Answer * Proxy B :=
  match op with
  | OpAlloc bytes d align =>
      let '(o, s') := alloc_overload bk bytes d align s in (Pointer o, s')
  | OpFree p => let '(o, s') := free bk p s in (Done o, s')
  | OpRealloc p bytes d align =>
      let '(o, s') := realloc_overload bk p bytes d align s in (Pointer o, s')
  | OpGetAllocSize p => let '(o, s') := getAllocSize bk p s in (Size o, s')
  | OpOffer p priority => let '(o, s') := offer bk p priority s in (Pointer o, s')
  | OpReclaim p => let '(o, s') := reclaim bk p s in (Pointer o, s')
  | OpReset => let '(o, s') := reset bk s in (Done o, s')
  | OpPurge priority => let '(o, s') := purge bk priority s in (Done o, s')
  | OpClear => let '(o, s') := clear bk s in (Done o, s')
  | OpGetFreeBytes => let '(o, s') := getFreeBytes bk s in (Size o, s')
  | OpGetUsedBytes => let '(o, s') := getUsedBytes bk s in (Size o, s')
  | OpGetPendingBytes => let '(o, s') := getPendingBytes bk s in (Size o, s')
  | OpGetTotalBytes => let '(o, s') := getTotalBytes bk s in (Size o, s')
  | OpResetCounters => let '(o, s') := resetCounters s in (Done o, s')
  end.

(** The same call made on the backing allocator itself, without the proxy
    ([resetCounters] is no call on the allocator). *)
Definition direct {B} (bk : ObjectAllocator B) (op : Op) (b : B) : Answer * B :=
  match op with
  | OpAlloc bytes d align =>
      let '(o, b') := backing_alloc_overload bk bytes d align b in (Pointer o, b')
  | OpFree p => let '(o, b') := backing_free bk p b in (Done o, b')
  | OpRealloc p bytes None align =>
      let '(o, b') := backing_realloc bk p bytes align b in (Pointer o, b')
  | OpRealloc p bytes (Some d) align =>
      let '(o, b') := backing_realloc_destructor bk p bytes d align b in (Pointer o, b')
  | OpGetAllocSize p => (Size (backing_getAllocSize bk p b), b)
  | OpOffer p priority => let '(o, b') := backing_offer bk p priority b in (Pointer o, b')
  | OpReclaim p => let '(o, b') := backing_reclaim bk p b in (Pointer o, b')
  | OpReset => let '(o, b') := backing_reset bk b in (Done o, b')
  | OpPurge priority => let '(o, b') := backing_purge bk priority b in (Done o, b')
  | OpClear => let '(o, b') := backing_clear bk b in (Done o, b')
  | OpGetFreeBytes => (Size (backing_getFreeBytes bk b), b)
  | OpGetUsedBytes => (Size (backing_getUsedBytes bk b), b)
  | OpGetPendingBytes => (Size (backing_getPendingBytes bk b), b)
  | OpGetTotalBytes => (Size (backing_getTotalBytes bk b), b)
  | OpResetCounters => (Done (Ret tt), b)
  end.

(** The answers of a workload, through the proxy and on the allocator
    itself. *)
Fixpoint answers {B} (bk : ObjectAllocator B) (ops : list Op) (s : Proxy B) : list Answer :=
  match ops with
  | [] => []
  | op :: rest => fst (call bk op s) :: answers bk rest (snd (call bk op s))
  end.

Fixpoint direct_answers {B} (bk : ObjectAllocator B) (ops : list Op) (b : B) : list Answer :=
  match ops with
  | [] => []
  | op :: rest => fst (direct bk op b) :: direct_answers bk rest (snd (direct bk op b))
  end.

Definition direct_run {B} (bk : ObjectAllocator B) (ops : list Op) (b : B) : B :=
  fold_left (fun b op => snd (direct bk op b)) ops b.

(** The members a call may write. *)
Definition touches (op : Op) (f : Field) : bool :=
  match op with
  | OpAlloc _ _ _ =>
      match f with
      | smallest | largest | highest | allocC | alloc_failC | alloc_largest_fail
      | allocB => true
      | _ => false
      end
  | OpRealloc _ _ _ _ =>
      match f with
      | smallest | largest | highest | alloc_largest_fail | allocB
      | reallocC | realloc_failC | realloc_growthB | realloc_shrinkB
      | realloc_moveC | realloc_moveB => true
      | _ => false
      end
  | OpOffer _ _ =>
      match f with offerC | offerB => true | _ => false end
  | OpReclaim _ =>
      match f with reclaimC | reclaim_failC | reclaimB => true | _ => false end
  | OpReset | OpClear | OpResetCounters => true
  | _ => false
  end.

(** [untouched f s s']: member [f] holds in [s'] what it held in [s]. *)
Definition untouched {B} (f : Field) (s s' : Proxy B) : Prop :=
  load f (stats s') = load f (stats s).

(** The call counter a call increments, if any. *)
Definition counted_by (op : Op) : option Field :=
  match op with
  | OpAlloc _ _ _ => Some allocC
  | OpRealloc _ _ _ _ => Some reallocC
  | OpOffer _ _ => Some offerC
  | OpReclaim _ => Some reclaimC
  | _ => None
  end.

(** How many calls of a workload increment the call counter [f]. *)
Definition count_calls (f : Field) (ops : list Op) : N :=
  N.of_nat (length (filter (fun op => match counted_by op with
                                      | Some g => Field_eqb g f
                                      | None => false
                                      end) ops)).

(** [sticky s s']: if the wrap-around flag is down in [s'], it was down
    in [s]. *)
Definition sticky {B} (s s' : Proxy B) : Prop :=
  wrapped s' = false -> wrapped s = false.

(** Relations among the counters that every workload keeps while no sum
    wraps around. *)
Definition consistent (c : Counters) : Prop :=
  load alloc_failC c <= load allocC c /\
  load realloc_failC c + load realloc_moveC c <= load reallocC c /\
  load reclaim_failC c <= load reclaimC c /\
  (load smallest c = SIZE_MAX \/ load smallest c <= load largest c) /\
  load largest c <= load allocB c /\
  load realloc_moveB c <= load allocB c /\
  load realloc_growthB c <= load allocB c /\
  (load allocC c = load alloc_failC c -> load reallocC c = load realloc_failC c ->
   load smallest c = SIZE_MAX /\ load largest c = 0 /\ load highest c = 0 /\
   load allocB c = 0) /\
  (load alloc_failC c = 0 -> load realloc_failC c = 0 -> load alloc_largest_fail c = 0).

(** ** BasicAllocator: the alignment helpers *)

(** [a - b] on [size_t]: the difference modulo 2^64. *)
Definition minus (a b : N) : N := wrap (a + (modulus - wrap b)).

(** [static size_t getAlignedOffset(void* ptr, size_t alignment)]:
    [(alignment - (ptr & (alignment - 1))) & (alignment - 1)] *)
Definition getAlignedOffset (p : ptr) (alignment : N) : N :=
  N.land (minus alignment (N.land p (minus alignment 1))) (minus alignment 1).

(** [static void* getAlignedPtr(void* ptr, size_t alignment)]:
    [ptr + getAlignedOffset(ptr, alignment)], in [uintptr_t]. *)
Definition getAlignedPtr (p : ptr) (alignment : N) : ptr :=
  wrap (p + getAlignedOffset p alignment).

(** ** A second test double

    [Brittle] is the pool of [Pool] with two queries that throw:
    [getAllocSize] throws for a pointer that is not a live block, and
    [getUsedBytes] is not supported and always throws. *)
Module Brittle.

Definition unsupported : exception := 38.

Definition brittle_getAllocSize (p : ptr) (st : Pool.state) : outcome N :=
  match Pool.lookup p (Pool.blocks st) with
  | Some size => Ret size
  | None => Raise Pool.invalid_argument
  end.

Definition allocator : ObjectAllocator Pool.state := {|
  backing_alloc := Pool.pool_alloc;
  backing_alloc_destructor := fun bytes _ align => Pool.pool_alloc bytes align;
  backing_free := Pool.pool_free;
  backing_realloc := Pool.pool_realloc;
  backing_realloc_destructor := fun p bytes _ align => Pool.pool_realloc p bytes align;
  backing_getAllocSize := brittle_getAllocSize;
  backing_offer := Pool.pool_offer;
  backing_reclaim := Pool.pool_reclaim;
  backing_reset := Pool.pool_reset;
  backing_purge := Pool.pool_purge;
  backing_clear := Pool.pool_reset;
  backing_getFreeBytes := fun st => Ret (Pool.budget st - Pool.used st);
  backing_getUsedBytes := fun _ => Raise unsupported;
  backing_getPendingBytes := fun st => Ret (Pool.pending st);
  backing_getTotalBytes := fun st => Ret (Pool.budget st)
|}.

End Brittle.

(** ** Further concrete runs *)

Module Trial.

Definition Q : ObjectAllocator Pool.state := Brittle.allocator.

(** A new proxy over an empty brittle pool of 1024 bytes. *)
Definition brittle_proxy : Proxy Pool.state := AllocatorStatistic (Pool.empty 1024).

(** After [alloc(64, 16)] on the brittle pool: the pool holds block 4096. *)
Definition brittle_block : Proxy Pool.state := effect (alloc Q 64 16) brittle_proxy.

(** After [offer(4096, 0)] on it: offer pointer 4097. *)
Definition brittle_offered : Proxy Pool.state := effect (offer Q 4096 0) brittle_block.

(** The workload of [Run], then a [reset]. *)
Definition after_reset : Proxy Pool.state :=
  exec Run.P OpReset (run Run.P Run.workload Run.new_proxy).

End Trial.

(** * Properties *)

(** ** Machine integers and members *)

Lemma wrap_small (z : N) : z <= SIZE_MAX -> wrap z = z.
Proof.
  intros Hz. unfold wrap. apply N.mod_small.
  unfold SIZE_MAX in Hz. unfold modulus. lia.
Qed.

Lemma Field_eqb_eq (f g : Field) : Field_eqb f g = true <-> f = g.
Proof.
  split.
  - destruct f, g; simpl; intros H; try reflexivity; discriminate H.
  - intros ->. destruct g; reflexivity.
Qed.

Lemma load_store (f g : Field) (v : N) (c : Counters) :
  load g (store f v c) = if Field_eqb f g then v else load g c.
Proof. destruct c, f, g; reflexivity. Qed.

Lemma load_store_other (f g : Field) (v : N) (c : Counters) :
  f <> g -> load g (store f v c) = load g c.
Proof.
  intros Hfg. rewrite load_store.
  destruct (Field_eqb f g) eqn:E; [|reflexivity].
  apply Field_eqb_eq in E. contradiction.
Qed.

Lemma load_zeroed (f : Field) :
  load f zeroed = match f with smallest => SIZE_MAX | _ => 0 end.
Proof. destruct f; reflexivity. Qed.

Lemma wrap_le (z : N) : wrap z <= SIZE_MAX.
Proof.
  unfold wrap. pose proof (N.mod_upper_bound z modulus) as H.
  unfold modulus, SIZE_MAX in *. lia.
Qed.

Lemma wrap_add_wrap (a b : N) : wrap (wrap a + b) = wrap (a + b).
Proof. unfold wrap. apply N.Div0.add_mod_idemp_l. Qed.

Lemma load_added (f g : Field) (k : N) (c : Counters) :
  load g (added f k c) = if Field_eqb f g then wrap (load f c + k) else load g c.
Proof. unfold added. apply load_store. Qed.

Lemma load_raised (f g : Field) (v : N) (c : Counters) :
  load g (raised f v c) = if Field_eqb f g then N.max (load f c) v else load g c.
Proof.
  unfold raised. destruct (load f c <? v) eqn:E.
  - rewrite load_store. apply N.ltb_lt in E.
    destruct (Field_eqb f g); [|reflexivity]. lia.
  - apply N.ltb_ge in E. destruct (Field_eqb f g) eqn:E'; [|reflexivity].
    apply Field_eqb_eq in E'. subst g. lia.
Qed.

Lemma load_lowered (f g : Field) (v : N) (c : Counters) :
  load g (lowered f v c) = if Field_eqb f g then N.min (load f c) v else load g c.
Proof.
  unfold lowered. destruct (v <? load f c) eqn:E.
  - rewrite load_store. apply N.ltb_lt in E.
    destruct (Field_eqb f g); [|reflexivity]. lia.
  - apply N.ltb_ge in E. destruct (Field_eqb f g) eqn:E'; [|reflexivity].
    apply Field_eqb_eq in E'. subst g. lia.
Qed.

(** Read one member out of a tower of updates. *)
Ltac members :=
  repeat first [rewrite load_added | rewrite load_raised | rewrite load_lowered];
  cbn [Field_eqb].

(** ** A relation kept by every step of a member function *)

Section Keeps.

Context {B : Type}.
Variable R : Proxy B -> Proxy B -> Prop.
Hypothesis R_refl : forall s, R s s.
Hypothesis R_trans : forall s1 s2 s3, R s1 s2 -> R s2 s3 -> R s1 s3.

Lemma keeps_ret {A} (a : A) : keeps R (ret a).
Proof. intros s. apply R_refl. Qed.

Lemma keeps_rethrow {A} (e : exception) : keeps R (@rethrow_exception B A e).
Proof. intros s. apply R_refl. Qed.

Lemma keeps_bind {A A'} (m : M B A) (k : A -> M B A') :
  keeps R m -> (forall a, keeps R (k a)) -> keeps R (bind m k).
Proof.
  intros Hm Hk s. unfold effect, bind.
  specialize (Hm s). unfold effect in Hm.
  destruct (m s) as [[a|e] s1]; simpl in *.
  - eapply R_trans; [exact Hm|]. apply Hk.
  - exact Hm.
Qed.

Lemma keeps_try_catch {A} (body : M B A) (handler : exception -> M B A) :
  keeps R body -> (forall e, keeps R (handler e)) -> keeps R (try_catch body handler).
Proof.
  intros Hb Hh s. unfold effect, try_catch.
  specialize (Hb s). unfold effect in Hb.
  destruct (body s) as [[a|e] s1]; simpl in *.
  - exact Hb.
  - eapply R_trans; [exact Hb|]. apply Hh.
Qed.

Lemma keeps_if {A} (b : bool) (m1 m2 : M B A) :
  keeps R m1 -> keeps R m2 -> keeps R (if b then m1 else m2).
Proof. destruct b; auto. Qed.

End Keeps.

(** ** Growth of the counters *)

Lemma advances_refl {B} (s : Proxy B) : advances s s.
Proof.
  repeat split; intros; try assumption; apply N.le_refl.
Qed.

Lemma advances_trans {B} (s1 s2 s3 : Proxy B) :
  advances s1 s2 -> advances s2 s3 -> advances s1 s3.
Proof.
  intros (Hmin1 & Hmax1 & Hsum1) (Hmin2 & Hmax2 & Hsum2).
  split; [|split].
  - intros f Hf. eapply N.le_trans; [apply Hmin2|apply Hmin1]; exact Hf.
  - intros f Hf. eapply N.le_trans; [apply Hmax1|apply Hmax2]; exact Hf.
  - intros Hw. destruct (Hsum2 Hw) as [Hw2 Hs2]. destruct (Hsum1 Hw2) as [Hw1 Hs1].
    split; [exact Hw1|].
    intros f Hf. eapply N.le_trans; [apply Hs1|apply Hs2]; exact Hf.
Qed.

Lemma advances_fetch_add {B} (f : Field) (k : N) :
  kind_of f = Sum -> keeps (@advances B) (fetch_add f k).
Proof.
  intros Hf s. unfold effect, fetch_add, advances. simpl.
  split; [|split].
  - intros g Hg. rewrite load_added.
    destruct (Field_eqb f g) eqn:E; [|apply N.le_refl].
    apply Field_eqb_eq in E. congruence.
  - intros g Hg. rewrite load_added.
    destruct (Field_eqb f g) eqn:E; [|apply N.le_refl].
    apply Field_eqb_eq in E. congruence.
  - intros Hw. apply orb_false_iff in Hw. destruct Hw as [Hw Hsum].
    apply N.ltb_ge in Hsum.
    split; [exact Hw|].
    intros g Hg. rewrite load_added.
    destruct (Field_eqb f g) eqn:E; [|apply N.le_refl].
    apply Field_eqb_eq in E. subst g. rewrite wrap_small by exact Hsum. lia.
Qed.

Lemma advances_raise_to {B} (f : Field) (v : N) :
  kind_of f = Maximum -> keeps (@advances B) (raise_to f v).
Proof.
  intros Hf s. unfold effect, raise_to, advances. simpl.
  split; [|split].
  - intros g Hg. rewrite load_raised.
    destruct (Field_eqb f g) eqn:E; [|apply N.le_refl].
    apply Field_eqb_eq in E. congruence.
  - intros g Hg. rewrite load_raised.
    destruct (Field_eqb f g) eqn:E; [|apply N.le_refl].
    apply Field_eqb_eq in E. subst g. lia.
  - intros Hw. split; [exact Hw|].
    intros g Hg. rewrite load_raised.
    destruct (Field_eqb f g) eqn:E; [|apply N.le_refl].
    apply Field_eqb_eq in E. congruence.
Qed.

Lemma advances_lower_to {B} (f : Field) (v : N) :
  kind_of f = Minimum -> keeps (@advances B) (lower_to f v).
Proof.
  intros Hf s. unfold effect, lower_to, advances. simpl.
  split; [|split].
  - intros g Hg. rewrite load_lowered.
    destruct (Field_eqb f g) eqn:E; [|apply N.le_refl].
    apply Field_eqb_eq in E. subst g. lia.
  - intros g Hg. rewrite load_lowered.
    destruct (Field_eqb f g) eqn:E; [|apply N.le_refl].
    apply Field_eqb_eq in E. congruence.
  - intros Hw. split; [exact Hw|].
    intros g Hg. rewrite load_lowered.
    destruct (Field_eqb f g) eqn:E; [|apply N.le_refl].
    apply Field_eqb_eq in E. congruence.
Qed.

Lemma advances_delegate {B A} (c : Call) (f : B -> outcome A * B) :
  keeps (@advances B) (delegate c f).
Proof.
  intros s. unfold effect, delegate.
  destruct (f (backing s)) as [r b']. simpl.
  repeat split; intros; try assumption; apply N.le_refl.
Qed.

Lemma advances_delegate_const {B A} (c : Call) (f : B -> outcome A) :
  keeps (@advances B) (delegate_const c f).
Proof.
  intros s. unfold effect, delegate_const. simpl.
  repeat split; intros; try assumption; apply N.le_refl.
Qed.

(** Decompose a member function into its steps, each of which keeps
    [advances]. *)
Ltac advance :=
  repeat first
    [ apply (keeps_bind _ advances_trans)
    | apply (keeps_try_catch _ advances_trans)
    | apply (keeps_ret _ advances_refl)
    | apply (keeps_rethrow _ advances_refl)
    | apply keeps_if
    | apply advances_fetch_add; reflexivity
    | apply advances_raise_to; reflexivity
    | apply advances_lower_to; reflexivity
    | apply advances_delegate
    | apply advances_delegate_const
    | intro ].

Section AdvancesCalls.

Context {B : Type}.
Variable bk : ObjectAllocator B.

Lemma advances_alloc_via (backing_call : M B ptr) (bytes : N) :
  keeps advances backing_call -> keeps advances (alloc_via bk backing_call bytes).
Proof. intros Hc. unfold alloc_via, getUsedBytes. advance. all: try apply Hc. Qed.

Lemma advances_realloc_via (backing_call : M B ptr) (p : ptr) (bytes : N) :
  keeps advances backing_call -> keeps advances (realloc_via bk backing_call p bytes).
Proof.
  intros Hc. unfold realloc_via, getUsedBytes, getAllocSize. advance.
  all: try apply Hc.
Qed.

Lemma advances_offer (p : ptr) (priority : N) : keeps advances (offer bk p priority).
Proof. unfold offer, getAllocSize. advance. Qed.

Lemma advances_reclaim (p : ptr) : keeps advances (reclaim bk p).
Proof. unfold reclaim, getAllocSize. advance. Qed.

(** Every call that does not execute [resetCounters] keeps [advances]. *)
Lemma advances_exec (op : Op) (s : Proxy B) :
  resets op = false -> advances s (exec bk op s).
Proof.
  intros Hop. destruct op as [bytes [d|] align| |p bytes [d|] align| | | | | | | | | | |];
    try discriminate Hop; simpl.
  - apply advances_alloc_via. apply advances_delegate.
  - apply advances_alloc_via. apply advances_delegate.
  - apply advances_delegate.
  - apply advances_realloc_via. apply advances_delegate.
  - apply advances_realloc_via. apply advances_delegate.
  - apply advances_delegate_const.
  - apply advances_offer.
  - apply advances_reclaim.
  - apply advances_delegate.
  - apply advances_delegate_const.
  - apply advances_delegate_const.
  - apply advances_delegate_const.
  - apply advances_delegate_const.
Qed.

Lemma advances_run (ops : list Op) (s : Proxy B) :
  forallb (fun op => negb (resets op)) ops = true -> advances s (run bk ops s).
Proof.
  revert s. induction ops as [|op ops IH]; intros s Hops; simpl.
  - apply advances_refl.
  - simpl in Hops. apply andb_true_iff in Hops. destruct Hops as [Hop Hops].
    apply negb_true_iff in Hop.
    eapply advances_trans; [apply advances_exec; exact Hop|].
    apply IH. exact Hops.
Qed.

End AdvancesCalls.

(** ** What one call does to the counters *)

(** Unfold a member function down to the answers of the backing allocator. *)
Ltac unfold_members :=
  unfold alloc_via, realloc_via, offer, reclaim, reset, clear, purge, free,
    getAllocSize, getUsedBytes, getFreeBytes, getPendingBytes, getTotalBytes,
    resetCounters, bind, try_catch, ret, rethrow_exception, fetch_add, raise_to,
    lower_to, delegate, delegate_const.

Ltac unfold_members_in H :=
  unfold alloc_via, realloc_via, offer, reclaim, reset, clear, purge, free,
    getAllocSize, getUsedBytes, getFreeBytes, getPendingBytes, getTotalBytes,
    resetCounters, bind, try_catch, ret, rethrow_exception, fetch_add, raise_to,
    lower_to, delegate, delegate_const in H.

Section Effects.

Context {B : Type}.
Variable bk : ObjectAllocator B.

Lemma alloc_via_cases (c : Call) (f : B -> outcome ptr * B) (bytes : N) (s : Proxy B) :
  let r := alloc_via bk (delegate c f) bytes s in
  (exists p u, fst r = Ret p /\ p <> nullptr /\
               stats (snd r) = alloc_succeeded bytes u (stats s)) \/
  ((fst r = Ret nullptr \/ exists e, fst r = Raise e) /\
   stats (snd r) = alloc_failed bytes (stats s)).
Proof.
  unfold_members. cbn.
  destruct (f (backing s)) as [[p|e] b'] eqn:Ef; cbn.
  - destruct (backing_getUsedBytes bk b') as [u|e] eqn:Eu; cbn.
    + destruct (p =? nullptr) eqn:Ep; cbn.
      * right. apply N.eqb_eq in Ep. subst p. split; [left; reflexivity|reflexivity].
      * left. apply N.eqb_neq in Ep. exists p, u. repeat split; assumption.
    + right. split; [right; exists e; reflexivity|reflexivity].
  - right. split; [right; exists e; reflexivity|reflexivity].
Qed.

Lemma alloc_via_rethrows (c : Call) (f : B -> outcome ptr * B) (bytes : N)
      (s : Proxy B) (e : exception) (b' : B) :
  f (backing s) = (Raise e, b') ->
  fst (alloc_via bk (delegate c f) bytes s) = Raise e.
Proof.
  intros Hf. unfold_members. cbn. rewrite Hf. reflexivity.
Qed.

Lemma realloc_via_success (c : Call) (f : B -> outcome ptr * B) (p : ptr) (bytes : N)
      (s s' : Proxy B) (r : ptr) :
  realloc_via bk (delegate c f) p bytes s = (Ret r, s') ->
  r <> nullptr ->
  exists last_size current_use,
    backing_getAllocSize bk p (backing s) = Ret last_size /\
    stats s' = realloc_succeeded p r bytes last_size current_use (stats s).
Proof.
  intros H Hr. unfold_members_in H. cbn in H.
  destruct (backing_getAllocSize bk p (backing s)) as [a|e] eqn:Ea; cbn in H;
    [|discriminate H].
  destruct (f (backing s)) as [[q|e] b'] eqn:Ef; cbn in H; [|discriminate H].
  destruct (backing_getUsedBytes bk b') as [u|e] eqn:Eu; cbn in H; [|discriminate H].
  destruct (q =? nullptr) eqn:Eq; cbn in H.
  - apply N.eqb_eq in Eq. inversion H; subst. contradiction.
  - exists a, u. split; [reflexivity|].
    unfold realloc_succeeded.
    destruct (negb (q =? p)) eqn:Em; cbn in H;
      destruct (bytes <? a) eqn:E1; cbn in H;
      try (destruct (a <? bytes) eqn:E2; cbn in H);
      inversion H; subst; rewrite ?Em, ?E1, ?E2; reflexivity.
Qed.


Lemma alloc_overload_cases (bytes : N) (d : option DestructorPtr) (align : N)
      (s : Proxy B) :
  let r := alloc_overload bk bytes d align s in
  (exists p u, fst r = Ret p /\ p <> nullptr /\
               stats (snd r) = alloc_succeeded bytes u (stats s)) \/
  ((fst r = Ret nullptr \/ exists e, fst r = Raise e) /\
   stats (snd r) = alloc_failed bytes (stats s)).
Proof. destruct d as [d|]; apply alloc_via_cases. Qed.

Lemma alloc_overload_success (bytes : N) (d : option DestructorPtr) (align : N)
      (s s' : Proxy B) (r : ptr) :
  alloc_overload bk bytes d align s = (Ret r, s') ->
  r <> nullptr ->
  exists u, stats s' = alloc_succeeded bytes u (stats s).
Proof.
  intros H Hr.
  destruct (alloc_overload_cases bytes d align s) as [(p & u & _ & _ & Hs)|[[Hn|[e He]] _]];
    rewrite H in *; simpl in *.
  - exists u. exact Hs.
  - inversion Hn. contradiction.
  - discriminate He.
Qed.

Lemma realloc_overload_success (p : ptr) (bytes : N) (d : option DestructorPtr)
      (align : N) (s s' : Proxy B) (r : ptr) :
  realloc_overload bk p bytes d align s = (Ret r, s') ->
  r <> nullptr ->
  exists last_size current_use,
    backing_getAllocSize bk p (backing s) = Ret last_size /\
    stats s' = realloc_succeeded p r bytes last_size current_use (stats s).
Proof. destruct d as [d|]; apply realloc_via_success. Qed.

(** What [reclaim] does: the size it adds is the one the backing allocator
    reports, after the reclaim, for the pointer [reclaim] was called with. *)
Lemma reclaim_effect (p : ptr) (s s' : Proxy B) (r : ptr) :
  reclaim bk p s = (Ret r, s') ->
  getTotalReclaims (stats s') = wrap (getTotalReclaims (stats s) + 1) /\
  (r = nullptr ->
   getTotalReclaimFails (stats s') = wrap (getTotalReclaimFails (stats s) + 1) /\
   getTotalReclaimBytes (stats s') = getTotalReclaimBytes (stats s)) /\
  (r <> nullptr ->
   exists size,
     backing_getAllocSize bk p (backing s') = Ret size /\
     getTotalReclaimBytes (stats s') = wrap (getTotalReclaimBytes (stats s) + size) /\
     getTotalReclaimFails (stats s') = getTotalReclaimFails (stats s)).
Proof.
  intros H. unfold_members_in H. cbn in H.
  destruct (backing_reclaim bk p (backing s)) as [[q|e] b'] eqn:Er; cbn in H;
    [|discriminate H].
  unfold getTotalReclaims, getTotalReclaimFails, getTotalReclaimBytes.
  destruct (q =? nullptr) eqn:Eq; cbn in H.
  - apply N.eqb_eq in Eq. inversion H; subst; cbn [stats backing].
    members. repeat split.
    intros Hr. contradiction.
  - apply N.eqb_neq in Eq.
    destruct (backing_getAllocSize bk p b') as [size|e] eqn:Ea; cbn in H;
      [|discriminate H].
    inversion H; subst; cbn [stats backing].
    members. split; [reflexivity|]. split; [intros Hr; contradiction|].
    intros _. exists size. repeat split. exact Ea.
Qed.

End Effects.

(** * The properties of the specification *)

Section Specification.

Context {B : Type}.
Variable bk : ObjectAllocator B.

(** C9. [free(handle)] and [purge(priority)] leave every statistics counter
    as it was: each only delegates, making exactly one call on the backing
    allocator and no counter update, whether that call returns or throws. *)
Theorem free_and_purge_leave_the_counters (s : Proxy B) (p : ptr) (priority : N) :
  stats (effect (free bk p) s) = stats s /\
  calls (effect (free bk p) s) = calls s ++ [CallFree p] /\
  stats (effect (purge bk priority) s) = stats s /\
  calls (effect (purge bk priority) s) = calls s ++ [CallPurge priority].
Proof.
  unfold effect, free, purge, delegate.
  destruct (backing_free bk p (backing s)) as [r1 b1].
  destruct (backing_purge bk priority (backing s)) as [r2 b2].
  simpl. repeat split.
Qed.

(** C7. Immediately after [resetCounters()], whatever workload [ops] ran
    before it, every read accessor returns zero ([getSmallestAlloc] included:
    the member holds the no-successes-yet value and reads as 0), and
    [resetCounters()] returns without any call on the backing allocator,
    which it leaves as it was. *)
Theorem resetCounters_zeroes_every_accessor (s0 : Proxy B) (ops : list Op) (f : Field) :
  let s := run bk ops s0 in
  read f (stats (effect resetCounters s)) = 0 /\
  load smallest (stats (effect resetCounters s)) = SIZE_MAX /\
  fst (resetCounters s) = Ret tt /\
  backing (effect resetCounters s) = backing s /\
  calls (effect resetCounters s) = calls s.
Proof.
  intros s. unfold effect, resetCounters. simpl.
  repeat split. destruct f; reflexivity.
Qed.

(** C6. For every successful [realloc] (either overload): when the returned
    address differs from the input handle, the relocation count goes up by
    exactly 1 and the relocated bytes by exactly the requested size [bytes]
    (the sums are those of [fetch_add], modulo 2^64); when the returned
    address equals the input, neither changes. *)
Theorem realloc_relocation_accounting (s s' : Proxy B) (p : ptr) (bytes : N)
        (d : option DestructorPtr) (align : N) (r : ptr) :
  realloc_overload bk p bytes d align s = (Ret r, s') ->
  r <> nullptr ->
  (r <> p ->
   getTotalReallocMoves (stats s') = wrap (getTotalReallocMoves (stats s) + 1) /\
   getTotalReallocMoved (stats s') = wrap (getTotalReallocMoved (stats s) + bytes)) /\
  (r = p ->
   getTotalReallocMoves (stats s') = getTotalReallocMoves (stats s) /\
   getTotalReallocMoved (stats s') = getTotalReallocMoved (stats s)).
Proof.
  intros H Hr.
  destruct (realloc_overload_success bk _ _ _ _ _ _ _ H Hr) as (a & u & _ & Hs).
  rewrite Hs. unfold getTotalReallocMoves, getTotalReallocMoved, realloc_succeeded.
  split; intros Hp.
  - apply N.eqb_neq in Hp. rewrite Hp. cbn [negb].
    destruct (bytes <? a); [|destruct (a <? bytes)]; members; split; reflexivity.
  - apply N.eqb_eq in Hp. rewrite Hp. cbn [negb].
    destruct (bytes <? a); [|destruct (a <? bytes)]; members; split; reflexivity.
Qed.

(** C5. For a successful [realloc] (either overload; in particular a
    non-relocating one) of a block whose size the backing allocator reports
    as [A], to the requested size [bytes]: if [bytes > A] the growth counter
    goes up by exactly [bytes - A] and the shrink counter is unchanged; if
    [bytes < A] the shrink counter goes up by exactly [A - bytes] and the
    growth counter is unchanged; if [bytes = A] neither changes. *)
Theorem realloc_growth_and_shrink (s s' : Proxy B) (p : ptr) (bytes : N)
        (d : option DestructorPtr) (align : N) (r : ptr) (A : N) :
  backing_getAllocSize bk p (backing s) = Ret A ->
  realloc_overload bk p bytes d align s = (Ret r, s') ->
  r <> nullptr ->
  (A < bytes ->
   getTotalReallocGrowth (stats s') = wrap (getTotalReallocGrowth (stats s) + (bytes - A)) /\
   getTotalReallocShrink (stats s') = getTotalReallocShrink (stats s)) /\
  (bytes < A ->
   getTotalReallocShrink (stats s') = wrap (getTotalReallocShrink (stats s) + (A - bytes)) /\
   getTotalReallocGrowth (stats s') = getTotalReallocGrowth (stats s)) /\
  (bytes = A ->
   getTotalReallocGrowth (stats s') = getTotalReallocGrowth (stats s) /\
   getTotalReallocShrink (stats s') = getTotalReallocShrink (stats s)).
Proof.
  intros HA H Hr.
  destruct (realloc_overload_success bk _ _ _ _ _ _ _ H Hr) as (a & u & Ha & Hs).
  rewrite HA in Ha. inversion Ha; subst a. clear Ha.
  rewrite Hs. unfold getTotalReallocGrowth, getTotalReallocShrink, realloc_succeeded.
  destruct (bytes <? A) eqn:E1; [|destruct (A <? bytes) eqn:E2].
  - apply N.ltb_lt in E1.
    destruct (negb (r =? p)); members; repeat split; intros; try reflexivity; lia.
  - apply N.ltb_lt in E2.
    destruct (negb (r =? p)); members; repeat split; intros; try reflexivity; lia.
  - apply N.ltb_ge in E1. apply N.ltb_ge in E2.
    destruct (negb (r =? p)); members; repeat split; intros; try reflexivity; lia.
Qed.


(** C10. After a successful allocation of 0 requested bytes (either
    overload), [getSmallestAlloc()] returns 0 and goes on returning 0 through
    every later sequence of proxy calls up to a reset; the same 0 is what a
    proxy without any successful allocation returns, so the two states cannot
    be told apart at the read interface. *)
Theorem zero_byte_success_pins_smallest (s s1 : Proxy B) (d : option DestructorPtr)
        (align : N) (r : ptr) (ops : list Op) :
  alloc_overload bk 0 d align s = (Ret r, s1) ->
  r <> nullptr ->
  forallb (fun op => negb (resets op)) ops = true ->
  getSmallestAlloc (stats s1) = 0 /\
  getSmallestAlloc (stats (run bk ops s1)) = 0 /\
  (forall b : B, getSmallestAlloc (stats (AllocatorStatistic b)) = 0).
Proof.
  intros H Hr Hops.
  destruct (alloc_overload_success bk _ _ _ _ _ _ H Hr) as (u & Hs).
  assert (H1 : load smallest (stats s1) = 0).
  { rewrite Hs. unfold alloc_succeeded. members. lia. }
  assert (H2 : load smallest (stats (run bk ops s1)) = 0).
  { destruct (advances_run bk ops s1 Hops) as (Hmin & _).
    specialize (Hmin smallest eq_refl). lia. }
  unfold getSmallestAlloc. rewrite H1, H2. repeat split.
Qed.

(** C8, as amended. Over any sequence of proxy calls without a reset
    ([resetCounters], [reset], [clear]), and as long as no [fetch_add] wraps
    around 2^64, the value read from every accessor other than
    [getSmallestAlloc] never decreases; the smallest-allocation member is a
    running minimum and never increases, and [getSmallestAlloc()] goes down
    to the requested size whenever a smaller allocation succeeds. *)
Theorem counters_grow_between_resets (s : Proxy B) (ops : list Op) :
  forallb (fun op => negb (resets op)) ops = true ->
  wrapped (run bk ops s) = false ->
  (forall f, f <> smallest -> read f (stats s) <= read f (stats (run bk ops s))) /\
  load smallest (stats (run bk ops s)) <= load smallest (stats s) /\
  (forall (bytes : N) (d : option DestructorPtr) (align : N) (p : ptr) (s1 : Proxy B),
      load smallest (stats s) <= SIZE_MAX ->
      alloc_overload bk bytes d align s = (Ret p, s1) ->
      p <> nullptr ->
      bytes < getSmallestAlloc (stats s) ->
      getSmallestAlloc (stats s1) = bytes /\
      getSmallestAlloc (stats s1) < getSmallestAlloc (stats s)).
Proof.
  intros Hops Hw.
  destruct (advances_run bk ops s Hops) as (Hmin & Hmax & Hsum).
  destruct (Hsum Hw) as [_ Hs].
  split; [|split].
  - intros f Hf.
    destruct f; try (exfalso; apply Hf; reflexivity);
      first [apply Hmax; reflexivity | apply Hs; reflexivity].
  - apply Hmin. reflexivity.
  - intros bytes d align p s1 Hrange H Hp Hlt.
    destruct (alloc_overload_success bk _ _ _ _ _ _ H Hp) as (u & Hs1).
    assert (Hm : load smallest (stats s1) = N.min (load smallest (stats s)) bytes).
    { rewrite Hs1. unfold alloc_succeeded. members. reflexivity. }
    unfold getSmallestAlloc in *. rewrite Hm.
    destruct (load smallest (stats s) =? SIZE_MAX) eqn:E; cbn [negb] in *; [lia|].
    replace (N.min (load smallest (stats s)) bytes) with bytes by lia.
    assert (Hb : (bytes =? SIZE_MAX) = false) by (apply N.eqb_neq; lia).
    rewrite Hb. cbn [negb]. split; [reflexivity|exact Hlt].
Qed.

(** C2, as amended. The counters are set to their reset values on
    construction, by [resetCounters()], and by the forwarded [reset()] and
    [clear()], which both call [resetCounters()] before they delegate (so
    also when the backing allocator then throws).  No other call resets a
    counter: short of a wrap-around of [fetch_add], a member that has left
    its reset value does not come back to it; [purge()] and [free()] change
    no member at all. *)
Theorem counters_are_reset_by_reset_and_clear :
  (forall b : B, stats (AllocatorStatistic b) = zeroed) /\
  (forall s : Proxy B,
      stats (effect resetCounters s) = zeroed /\
      stats (effect (reset bk) s) = zeroed /\
      stats (effect (clear bk) s) = zeroed) /\
  (forall (s : Proxy B) (p : ptr) (priority : N),
      stats (effect (purge bk priority) s) = stats s /\
      stats (effect (free bk p) s) = stats s) /\
  (forall (op : Op) (s : Proxy B) (f : Field),
      resets op = false ->
      wrapped (exec bk op s) = false ->
      load smallest (stats s) <= SIZE_MAX ->
      load f (stats s) <> load f zeroed ->
      load f (stats (exec bk op s)) <> load f zeroed).
Proof.
  split; [reflexivity|]. split; [|split].
  - intros s. unfold effect, reset, clear, resetCounters, bind, delegate. simpl.
    destruct (backing_reset bk (backing s)) as [[[]|e1] b1];
      destruct (backing_clear bk (backing s)) as [[[]|e2] b2]; simpl; repeat split.
  - intros s p priority. unfold effect, purge, free, delegate.
    destruct (backing_purge bk priority (backing s)) as [r1 b1].
    destruct (backing_free bk p (backing s)) as [r2 b2]. simpl. split; reflexivity.
  - intros op s f Hop Hw Hrange Hf.
    destruct (advances_exec bk op s Hop) as (Hmin & Hmax & Hsum).
    destruct (Hsum Hw) as [_ Hs].
    rewrite load_zeroed in *.
    destruct f;
      match goal with
      | |- load ?g _ <> _ =>
          first [ pose proof (Hmin g eq_refl) as Hg
                | pose proof (Hmax g eq_refl) as Hg
                | pose proof (Hs g eq_refl) as Hg ]
      end; lia.
Qed.


(** *** Sequences of [alloc] calls *)

Lemma successes_cons (o : outcome ptr) (os : list (outcome ptr)) :
  successes (o :: os) = (if succeeded o then 1 else 0) + successes os.
Proof.
  unfold successes. cbn [filter].
  destruct (succeeded o); cbn [length]; lia.
Qed.

Lemma failures_cons (o : outcome ptr) (os : list (outcome ptr)) :
  failures (o :: os) = (if succeeded o then 0 else 1) + failures os.
Proof.
  unfold failures. cbn [filter].
  destruct (succeeded o); cbn [length negb]; lia.
Qed.

Lemma successes_failures (os : list (outcome ptr)) :
  successes os + failures os = N.of_nat (length os).
Proof.
  induction os as [|o os IH]; [reflexivity|].
  rewrite successes_cons, failures_cons. simpl length.
  destruct (succeeded o); lia.
Qed.

(** One [alloc] call: the call counter goes up by one, the failure counter
    by one exactly when the call did not succeed. *)
Lemma alloc_request_counts (rq : AllocRequest) (s s' : Proxy B) (o : outcome ptr) :
  alloc_request bk rq s = (o, s') ->
  load allocC (stats s') = wrap (load allocC (stats s) + 1) /\
  load alloc_failC (stats s') =
    (if succeeded o then load alloc_failC (stats s)
     else wrap (load alloc_failC (stats s) + 1)) /\
  (succeeded o = true ->
   load largest (stats s') = N.max (load largest (stats s)) (requested rq) /\
   load smallest (stats s') = N.min (load smallest (stats s)) (requested rq)).
Proof.
  destruct rq as [[bytes d] align]. unfold alloc_request, requested. simpl fst.
  intros H.
  destruct (alloc_overload_cases bk bytes d align s)
    as [(p & u & Ho & Hp & Hs)|[[Hn|[e He]] Hs]];
    rewrite H in *; cbn [fst snd] in *; subst o; rewrite Hs; cbn [succeeded].
  - apply N.eqb_neq in Hp. rewrite Hp. cbn [negb].
    unfold alloc_succeeded. members. repeat split.
  - unfold alloc_failed. members.
    split; [reflexivity|]. split; [reflexivity|]. intros Hf. discriminate Hf.
  - unfold alloc_failed. members.
    split; [reflexivity|]. split; [reflexivity|]. intros Hf. discriminate Hf.
Qed.

Lemma alloc_calls_counts (rqs : list AllocRequest) (s s' : Proxy B)
      (os : list (outcome ptr)) :
  alloc_calls bk rqs s = (os, s') ->
  load allocC (stats s) <= SIZE_MAX ->
  load alloc_failC (stats s) <= SIZE_MAX ->
  length os = length rqs /\
  load allocC (stats s') = wrap (load allocC (stats s) + N.of_nat (length rqs)) /\
  load alloc_failC (stats s') = wrap (load alloc_failC (stats s) + failures os).
Proof.
  revert s s' os. induction rqs as [|rq rqs IH]; intros s s' os H Ha Hf.
  - simpl in H. inversion H; subst. simpl. unfold failures. simpl.
    rewrite !N.add_0_r, !wrap_small by assumption. repeat split.
  - simpl in H.
    destruct (alloc_request bk rq s) as [o s1] eqn:E1.
    destruct (alloc_calls bk rqs s1) as [os' s2] eqn:E2.
    inversion H; subst. clear H.
    destruct (alloc_request_counts rq s s1 o E1) as (Hc & Hfl & _).
    assert (Ha1 : load allocC (stats s1) <= SIZE_MAX) by (rewrite Hc; apply wrap_le).
    assert (Hf1 : load alloc_failC (stats s1) <= SIZE_MAX).
    { rewrite Hfl. destruct (succeeded o); [assumption|apply wrap_le]. }
    destruct (IH s1 s' os' E2 Ha1 Hf1) as (Hlen & Hc' & Hf').
    split; [simpl; congruence|]. split.
    + rewrite Hc', Hc, wrap_add_wrap. f_equal. simpl length. lia.
    + rewrite Hf', Hfl, failures_cons.
      destruct (succeeded o).
      * f_equal.
      * rewrite wrap_add_wrap. f_equal. lia.
Qed.

Lemma fold_left_max (l : list N) (a : N) :
  fold_left N.max l a = N.max a (maximum l).
Proof.
  revert a. induction l as [|x l IH]; intros a; simpl.
  - lia.
  - rewrite IH. unfold maximum. lia.
Qed.

Lemma fold_left_min (l : list N) (a : N) :
  fold_left N.min l a = match minimum l with None => a | Some m => N.min a m end.
Proof.
  revert a. induction l as [|x l IH]; intros a; simpl.
  - reflexivity.
  - rewrite IH. destruct (minimum l); lia.
Qed.

Lemma minimum_bounded (l : list N) (K m : N) :
  Forall (fun x => x <= K) l -> minimum l = Some m -> m <= K.
Proof.
  revert m. induction l as [|x l IH]; intros m Hl Hm; simpl in Hm.
  - discriminate Hm.
  - inversion Hl; subst.
    destruct (minimum l) as [m'|]; inversion Hm; subst; lia.
Qed.

Lemma alloc_calls_extrema (rqs : list AllocRequest) (s s' : Proxy B)
      (os : list (outcome ptr)) :
  alloc_calls bk rqs s = (os, s') ->
  forallb succeeded os = true ->
  load largest (stats s') = fold_left N.max (map requested rqs) (load largest (stats s)) /\
  load smallest (stats s') = fold_left N.min (map requested rqs) (load smallest (stats s)).
Proof.
  revert s s' os. induction rqs as [|rq rqs IH]; intros s s' os H Hok.
  - simpl in H. inversion H; subst. split; reflexivity.
  - simpl in H.
    destruct (alloc_request bk rq s) as [o s1] eqn:E1.
    destruct (alloc_calls bk rqs s1) as [os' s2] eqn:E2.
    inversion H; subst. clear H.
    simpl in Hok. apply andb_true_iff in Hok. destruct Hok as [Ho Hos].
    destruct (alloc_request_counts rq s s1 o E1) as (_ & _ & Hx).
    destruct (Hx Ho) as [Hl Hs].
    destruct (IH s1 s' os' E2 Hos) as [Hl' Hs'].
    simpl. rewrite Hl', Hs', Hl, Hs. split; reflexivity.
Qed.

(** C3. For every sequence of [alloc] calls on a new proxy, the total-allocs
    counter equals successes plus failures and the failure counter equals the
    failures, where a call that threw counts as a failure: as 64-bit counters
    for any sequence, and as plain numbers for fewer than 2^64 calls.  In any
    state, when the backing allocator throws, the proxy has incremented the
    call counter, still increments the failure counter and updates the
    largest failed size, and throws the identical exception to its caller. *)
Theorem alloc_total_is_successes_plus_failures (rqs : list AllocRequest) (b : B)
        (os : list (outcome ptr)) (s' : Proxy B) :
  alloc_calls bk rqs (AllocatorStatistic b) = (os, s') ->
  getTotalAllocs (stats s') = wrap (successes os + failures os) /\
  getTotalAllocFails (stats s') = wrap (failures os) /\
  (N.of_nat (length rqs) <= SIZE_MAX ->
   getTotalAllocFails (stats s') = failures os /\
   getTotalAllocs (stats s') = successes os + getTotalAllocFails (stats s')) /\
  (forall (s : Proxy B) (bytes : N) (d : option DestructorPtr) (align : N)
          (e : exception) (b1 : B),
      backing_alloc_overload bk bytes d align (backing s) = (Raise e, b1) ->
      fst (alloc_overload bk bytes d align s) = Raise e /\
      getTotalAllocs (stats (effect (alloc_overload bk bytes d align) s)) =
        wrap (getTotalAllocs (stats s) + 1) /\
      getTotalAllocFails (stats (effect (alloc_overload bk bytes d align) s)) =
        wrap (getTotalAllocFails (stats s) + 1) /\
      getLargestAllocFailed (stats (effect (alloc_overload bk bytes d align) s)) =
        N.max (getLargestAllocFailed (stats s)) bytes).
Proof.
  intros H.
  assert (H0 : (0 : N) <= SIZE_MAX) by (unfold SIZE_MAX; lia).
  destruct (alloc_calls_counts rqs _ _ _ H H0 H0) as (Hl & Hc & Hf).
  pose proof (successes_failures os) as Hsf. rewrite Hl in Hsf.
  change (stats (AllocatorStatistic b)) with zeroed in Hc, Hf.
  rewrite load_zeroed, N.add_0_l in Hc, Hf.
  rewrite <- Hsf in Hc.
  unfold getTotalAllocs, getTotalAllocFails, getLargestAllocFailed.
  split; [exact Hc|]. split; [exact Hf|]. split.
  - intros Hlen. rewrite <- Hsf in Hlen.
    assert (Hf' : failures os <= SIZE_MAX) by (clear - Hlen; lia).
    rewrite wrap_small in Hc by exact Hlen.
    rewrite wrap_small in Hf by exact Hf'.
    split; [exact Hf|]. rewrite Hf. exact Hc.
  - intros s bytes d align e b1 Hb.
    assert (Hr : fst (alloc_overload bk bytes d align s) = Raise e).
    { destruct d as [d|]; simpl in *; eapply alloc_via_rethrows; exact Hb. }
    split; [exact Hr|].
    destruct (alloc_overload_cases bk bytes d align s)
      as [(p & u & Ho & _)|[_ Hs]].
    + rewrite Hr in Ho. discriminate Ho.
    + unfold effect. rewrite Hs. unfold alloc_failed. members. repeat split.
Qed.

Lemma minimum_below (l : list N) (K m : N) :
  Forall (fun x => x < K) l -> minimum l = Some m -> m < K.
Proof.
  revert m. induction l as [|x l IH]; intros m Hl Hm; simpl in Hm.
  - discriminate Hm.
  - inversion Hl; subst.
    destruct (minimum l) as [m'|]; inversion Hm; subst; lia.
Qed.

(** What the two extrema read after a sequence of successful [alloc] calls
    on a new proxy, the member's no-success value [SIZE_MAX] included. *)
Lemma alloc_extrema_with_sentinel (rqs : list AllocRequest) (b : B)
      (os : list (outcome ptr)) (s' : Proxy B) :
  alloc_calls bk rqs (AllocatorStatistic b) = (os, s') ->
  forallb succeeded os = true ->
  Forall (fun rq => requested rq <= SIZE_MAX) rqs ->
  getLargestAlloc (stats s') = maximum (map requested rqs) /\
  getSmallestAlloc (stats s') =
    match minimum (map requested rqs) with
    | None => 0
    | Some m => if m =? SIZE_MAX then 0 else m
    end.
Proof.
  intros H Hok Hrange.
  destruct (alloc_calls_extrema rqs _ _ _ H Hok) as [Hl Hs].
  change (stats (AllocatorStatistic b)) with zeroed in Hl, Hs.
  rewrite load_zeroed in Hl, Hs.
  rewrite fold_left_max in Hl. rewrite fold_left_min in Hs.
  unfold getLargestAlloc, getSmallestAlloc. rewrite Hl, Hs. split; [lia|].
  destruct (minimum (map requested rqs)) as [m|] eqn:Em.
  - assert (Hm : m <= SIZE_MAX).
    { eapply minimum_bounded; [|exact Em].
      apply Forall_map. exact Hrange. }
    replace (N.min SIZE_MAX m) with m by lia.
    destruct (m =? SIZE_MAX); reflexivity.
  - rewrite N.eqb_refl. reflexivity.
Qed.

(** C4. For every sequence of successful [alloc] calls on a new proxy with
    requested sizes s1..sn, [getLargestAlloc()] returns max(si) and
    [getSmallestAlloc()] returns min(si); when there has been no successful
    allocation (n = 0), [getSmallestAlloc()] returns 0 (and so does
    [getLargestAlloc()]).  The sizes are those an allocator can grant: a
    block of [bytes] usable bytes at an address other than [nullptr] has
    [bytes] below [SIZE_MAX]. *)
Theorem alloc_extrema (rqs : list AllocRequest) (b : B)
        (os : list (outcome ptr)) (s' : Proxy B) :
  alloc_calls bk rqs (AllocatorStatistic b) = (os, s') ->
  forallb succeeded os = true ->
  Forall (fun rq => requested rq < SIZE_MAX) rqs ->
  getLargestAlloc (stats s') = maximum (map requested rqs) /\
  getSmallestAlloc (stats s') =
    match minimum (map requested rqs) with
    | None => 0
    | Some m => m
    end.
Proof.
  intros H Hok Hbelow.
  assert (Hrange : Forall (fun rq => requested rq <= SIZE_MAX) rqs).
  { eapply Forall_impl; [|exact Hbelow]. intros rq Hrq. simpl in Hrq. lia. }
  destruct (alloc_extrema_with_sentinel rqs b os s' H Hok Hrange) as [Hl Hs].
  split; [exact Hl|]. rewrite Hs.
  destruct (minimum (map requested rqs)) as [m|] eqn:Em; [|reflexivity].
  assert (Hm : m < SIZE_MAX).
  { eapply minimum_below; [|exact Em]. apply Forall_map. exact Hbelow. }
  apply N.lt_neq in Hm. apply N.eqb_neq in Hm. rewrite Hm. reflexivity.
Qed.

End Specification.


(** * The properties on concrete runs *)

Import Run.

(** C1: the code departs from the claim.  The claim has a successful
    [reclaim] add the size of the handle returned after the reclaim, so that
    the round trip [reclaim(offer(h))] adds [sizeOf(h)].  On this run the
    block 4096 of 64 bytes is offered (offer pointer 4097) and reclaimed:
    [reclaim] returns 4096, whose size is 64, and yet adds to the reclaimed
    bytes the size reported for the offer pointer 4097 it was called with,
    which is 0. *)
Theorem reclaim_adds_the_size_of_the_offer_pointer :
  offer P 4096 0 one_block = (Ret 4097, offered) /\
  reclaim P 4097 offered = (Ret 4096, reclaimed) /\
  backing_getAllocSize P 4096 (backing reclaimed) = Ret 64 /\
  backing_getAllocSize P 4097 (backing reclaimed) = Ret 0 /\
  getTotalOfferBytes (stats reclaimed) = 64 /\
  getTotalReclaims (stats reclaimed) = 1 /\
  getTotalReclaimFails (stats reclaimed) = 0 /\
  getTotalReclaimBytes (stats offered) = 0 /\
  getTotalReclaimBytes (stats reclaimed) = 0.
Proof. vm_compute. repeat split. Qed.

(** C2 fails as stated: the forwarded [reset()] and [clear()] do reset the
    counters.  After one [alloc] the call counter reads 1; after [reset()],
    and likewise after [clear()], it reads 0 again. *)
Lemma reset_and_clear_zero_the_counters :
  getTotalAllocs (stats one_block) = 1 /\
  getTotalAllocs (stats (effect (reset P) one_block)) = 0 /\
  getTotalAllocs (stats (effect (clear P) one_block)) = 0.
Proof. vm_compute. repeat split. Qed.

Lemma counters_are_reset_by_reset_and_clear_witness :
  resets (OpAlloc 8 None 16) = false /\
  wrapped (exec P (OpAlloc 8 None 16) one_block) = false /\
  load smallest (stats one_block) <= SIZE_MAX /\
  load allocC (stats one_block) <> load allocC zeroed /\
  load allocC (stats (exec P (OpAlloc 8 None 16) one_block)) <> load allocC zeroed.
Proof.
  split; [vm_compute; reflexivity|]. split; [vm_compute; reflexivity|].
  split; [vm_compute; discriminate|]. split; [vm_compute; discriminate|].
  apply (proj2 (proj2 (proj2 (counters_are_reset_by_reset_and_clear P)))).
  - reflexivity.
  - vm_compute. reflexivity.
  - vm_compute. discriminate.
  - vm_compute. discriminate.
Defined.

Lemma alloc_total_is_successes_plus_failures_witness :
  alloc_calls P mixed_requests new_proxy
    = ([Ret 4096; Ret nullptr; Raise Pool.invalid_argument],
       snd (alloc_calls P mixed_requests new_proxy)) /\
  N.of_nat (length mixed_requests) <= SIZE_MAX /\
  getTotalAllocFails (stats (snd (alloc_calls P mixed_requests new_proxy))) = 2 /\
  getTotalAllocs (stats (snd (alloc_calls P mixed_requests new_proxy)))
    = 1 + getTotalAllocFails (stats (snd (alloc_calls P mixed_requests new_proxy))) /\
  fst (alloc_overload P 8 (Some 3) 0 one_block) = Raise Pool.invalid_argument /\
  getTotalAllocFails (stats (effect (alloc_overload P 8 (Some 3) 0) one_block))
    = wrap (getTotalAllocFails (stats one_block) + 1).
Proof.
  split; [vm_compute; reflexivity|]. split; [vm_compute; discriminate|].
  destruct (alloc_total_is_successes_plus_failures P mixed_requests (Pool.empty 1024)
              [Ret 4096; Ret nullptr; Raise Pool.invalid_argument]
              (snd (alloc_calls P mixed_requests new_proxy)))
    as (_ & _ & Hexact & Hraise).
  - vm_compute. reflexivity.
  - destruct Hexact as [Hfails Htotal]; [vm_compute; discriminate|].
    destruct (Hraise one_block 8 (Some 3) 0 Pool.invalid_argument (backing one_block))
      as (Hr & _ & Hf & _); [vm_compute; reflexivity|].
    split; [exact Hfails|]. split; [exact Htotal|]. split; [exact Hr|exact Hf].
Defined.

(** Why the sizes of [alloc_extrema] stay below [SIZE_MAX]: were a request
    of [SIZE_MAX] bytes ever granted, as the test double does here, the
    smallest-allocation member would stay at the value it holds while there
    is no success, and [getSmallestAlloc()] would return 0. *)
Lemma smallest_alloc_misses_SIZE_MAX :
  fst (alloc_calls P [(SIZE_MAX, None, 16)] vast_proxy) = [Ret 4096] /\
  minimum (map requested [(SIZE_MAX, None, 16)]) = Some SIZE_MAX /\
  getSmallestAlloc (stats (snd (alloc_calls P [(SIZE_MAX, None, 16)] vast_proxy))) = 0 /\
  getSmallestAlloc (stats (snd (alloc_calls P [(SIZE_MAX, None, 16)] vast_proxy)))
    <> SIZE_MAX.
Proof.
  split; [vm_compute; reflexivity|]. split; [vm_compute; reflexivity|]. split; [vm_compute; reflexivity|].
  vm_compute. discriminate.
Qed.

Lemma alloc_extrema_witness :
  alloc_calls P granted_requests new_proxy
    = ([Ret 4096; Ret 4112], snd (alloc_calls P granted_requests new_proxy)) /\
  forallb succeeded [Ret 4096; Ret 4112] = true /\
  Forall (fun rq => requested rq < SIZE_MAX) granted_requests /\
  getLargestAlloc (stats (snd (alloc_calls P granted_requests new_proxy))) = 64 /\
  getSmallestAlloc (stats (snd (alloc_calls P granted_requests new_proxy))) = 32.
Proof.
  assert (Hbelow : Forall (fun rq => requested rq < SIZE_MAX) granted_requests).
  { repeat constructor; vm_compute; reflexivity. }
  split; [vm_compute; reflexivity|]. split; [vm_compute; reflexivity|].
  split; [exact Hbelow|].
  apply (alloc_extrema P granted_requests (Pool.empty 1024) [Ret 4096; Ret 4112]
           (snd (alloc_calls P granted_requests new_proxy)));
    [vm_compute; reflexivity|vm_compute; reflexivity|exact Hbelow].
Defined.

Lemma realloc_growth_and_shrink_witness :
  backing_getAllocSize P 4096 (backing one_block) = Ret 64 /\
  realloc_overload P 4096 32 None 16 one_block
    = (Ret 4096, effect (realloc_overload P 4096 32 None 16) one_block) /\
  4096 <> nullptr /\
  getTotalReallocShrink (stats (effect (realloc_overload P 4096 32 None 16) one_block))
    = wrap (getTotalReallocShrink (stats one_block) + (64 - 32)) /\
  getTotalReallocGrowth (stats (effect (realloc_overload P 4096 32 None 16) one_block))
    = getTotalReallocGrowth (stats one_block).
Proof.
  split; [vm_compute; reflexivity|]. split; [vm_compute; reflexivity|]. split; [discriminate|].
  apply (realloc_growth_and_shrink P one_block
           (effect (realloc_overload P 4096 32 None 16) one_block)
           4096 32 None 16 4096 64);
    [vm_compute; reflexivity|vm_compute; reflexivity|discriminate|vm_compute; reflexivity].
Defined.

Lemma realloc_relocation_accounting_witness :
  realloc_overload P 4096 128 None 16 one_block
    = (Ret 4112, effect (realloc_overload P 4096 128 None 16) one_block) /\
  4112 <> nullptr /\
  4112 <> 4096 /\
  getTotalReallocMoves (stats (effect (realloc_overload P 4096 128 None 16) one_block))
    = wrap (getTotalReallocMoves (stats one_block) + 1) /\
  getTotalReallocMoved (stats (effect (realloc_overload P 4096 128 None 16) one_block))
    = wrap (getTotalReallocMoved (stats one_block) + 128).
Proof.
  split; [vm_compute; reflexivity|]. split; [discriminate|]. split; [discriminate|].
  apply (realloc_relocation_accounting P one_block
           (effect (realloc_overload P 4096 128 None 16) one_block)
           4096 128 None 16 4112);
    [vm_compute; reflexivity|discriminate|discriminate].
Defined.

(** C8 fails as stated: the value read by [getSmallestAlloc()] goes down,
    from 32 after a first successful allocation to 16 after a second,
    smaller one, with no reset in between. *)
Lemma smallest_alloc_decreases :
  getSmallestAlloc (stats (run P [OpAlloc 32 None 16] new_proxy)) = 32 /\
  getSmallestAlloc (stats (run P [OpAlloc 32 None 16; OpAlloc 16 None 16] new_proxy)) = 16 /\
  ~ (getSmallestAlloc (stats (run P [OpAlloc 32 None 16] new_proxy))
     <= getSmallestAlloc (stats (exec P (OpAlloc 16 None 16)
                                      (run P [OpAlloc 32 None 16] new_proxy)))).
Proof.
  split; [vm_compute; reflexivity|]. split; [vm_compute; reflexivity|].
  vm_compute. intros H. apply H. reflexivity.
Qed.

(** The sums do wrap around: after a granted allocation of [SIZE_MAX] bytes,
    its release and a granted allocation of one byte, the allocated bytes
    read 0. *)
Example allocated_bytes_wrap_around :
  getTotalAllocBytes (stats (run P [OpAlloc SIZE_MAX None 16] vast_proxy)) = SIZE_MAX /\
  getTotalAllocBytes
    (stats (run P [OpAlloc SIZE_MAX None 16; OpFree 4096; OpAlloc 1 None 16] vast_proxy)) = 0 /\
  wrapped (run P [OpAlloc SIZE_MAX None 16; OpFree 4096; OpAlloc 1 None 16] vast_proxy) = true.
Proof. vm_compute. repeat split. Qed.

Lemma counters_grow_between_resets_witness :
  forallb (fun op => negb (resets op)) workload = true /\
  wrapped (run P workload one_block) = false /\
  (forall f, f <> smallest ->
             read f (stats one_block) <= read f (stats (run P workload one_block))) /\
  load smallest (stats (run P workload one_block)) <= load smallest (stats one_block) /\
  getSmallestAlloc (stats (effect (alloc_overload P 16 None 16) one_block)) = 16.
Proof.
  split; [vm_compute; reflexivity|]. split; [vm_compute; reflexivity|].
  destruct (counters_grow_between_resets P one_block workload)
    as (Hgrow & Hmin & Hdown); [vm_compute; reflexivity|vm_compute; reflexivity|].
  split; [exact Hgrow|]. split; [exact Hmin|].
  apply (Hdown 16 None 16 4112 (effect (alloc_overload P 16 None 16) one_block));
    [vm_compute; discriminate|vm_compute; reflexivity|discriminate|vm_compute; reflexivity].
Defined.

Lemma zero_byte_success_pins_smallest_witness :
  alloc_overload P 0 None 16 one_block
    = (Ret 4112, effect (alloc_overload P 0 None 16) one_block) /\
  4112 <> nullptr /\
  forallb (fun op => negb (resets op)) workload = true /\
  getSmallestAlloc (stats (effect (alloc_overload P 0 None 16) one_block)) = 0 /\
  getSmallestAlloc (stats (run P workload (effect (alloc_overload P 0 None 16) one_block))) = 0 /\
  (forall b : Pool.state, getSmallestAlloc (stats (AllocatorStatistic b)) = 0).
Proof.
  split; [vm_compute; reflexivity|]. split; [discriminate|]. split; [vm_compute; reflexivity|].
  apply (zero_byte_success_pins_smallest P one_block
           (effect (alloc_overload P 0 None 16) one_block) None 16 4112 workload);
    [vm_compute; reflexivity|discriminate|vm_compute; reflexivity].
Defined.


(** * Further properties of the statistics proxy *)

(** ** Members a step leaves alone *)

Lemma untouched_refl {B} (f : Field) (s : Proxy B) : untouched f s s.
Proof. reflexivity. Qed.

Lemma untouched_trans {B} (f : Field) (s1 s2 s3 : Proxy B) :
  untouched f s1 s2 -> untouched f s2 s3 -> untouched f s1 s3.
Proof. unfold untouched. intros H1 H2. rewrite H2. exact H1. Qed.

Lemma untouched_fetch_add {B} (f g : Field) (k : N) :
  g <> f -> keeps (@untouched B f) (fetch_add g k).
Proof.
  intros Hg s. unfold untouched, effect, fetch_add. simpl.
  rewrite load_added. destruct (Field_eqb g f) eqn:E; [|reflexivity].
  apply Field_eqb_eq in E. contradiction.
Qed.

Lemma untouched_raise_to {B} (f g : Field) (v : N) :
  g <> f -> keeps (@untouched B f) (raise_to g v).
Proof.
  intros Hg s. unfold untouched, effect, raise_to. simpl.
  rewrite load_raised. destruct (Field_eqb g f) eqn:E; [|reflexivity].
  apply Field_eqb_eq in E. contradiction.
Qed.

Lemma untouched_lower_to {B} (f g : Field) (v : N) :
  g <> f -> keeps (@untouched B f) (lower_to g v).
Proof.
  intros Hg s. unfold untouched, effect, lower_to. simpl.
  rewrite load_lowered. destruct (Field_eqb g f) eqn:E; [|reflexivity].
  apply Field_eqb_eq in E. contradiction.
Qed.

Lemma untouched_delegate {B A} (f : Field) (c : Call) (h : B -> outcome A * B) :
  keeps (@untouched B f) (delegate c h).
Proof.
  intros s. unfold untouched, effect, delegate.
  destruct (h (backing s)) as [r b']. reflexivity.
Qed.

Lemma untouched_delegate_const {B A} (f : Field) (c : Call) (h : B -> outcome A) :
  keeps (@untouched B f) (delegate_const c h).
Proof. intros s. reflexivity. Qed.

(** Decompose a member function into steps that leave member [f] alone. *)
Ltac leave_alone f :=
  repeat first
    [ apply (keeps_bind _ (untouched_trans f))
    | apply (keeps_try_catch _ (untouched_trans f))
    | apply (keeps_ret _ (untouched_refl f))
    | apply (keeps_rethrow _ (untouched_refl f))
    | apply keeps_if
    | apply untouched_fetch_add; discriminate
    | apply untouched_raise_to; discriminate
    | apply untouched_lower_to; discriminate
    | apply untouched_delegate
    | apply untouched_delegate_const
    | intro ].

Section Footprint.

Context {B : Type}.
Variable bk : ObjectAllocator B.

Lemma untouched_exec (op : Op) (f : Field) (s : Proxy B) :
  touches op f = false -> untouched f s (exec bk op s).
Proof.
  intros Hop.
  destruct op as [bytes [d|] align| |p bytes [d|] align| | | | | | | | | | |];
    try discriminate Hop; cbn [exec alloc_overload realloc_overload];
    try (apply untouched_delegate); try (apply untouched_delegate_const);
    destruct f; try discriminate Hop;
      unfold alloc, alloc_destructor, realloc, realloc_destructor, alloc_via,
        realloc_via, offer, reclaim, getAllocSize, getUsedBytes;
      match goal with
      | |- untouched ?g ?s0 (effect ?m ?s0) =>
          generalize s0; change (keeps (untouched g) m); leave_alone g
      end.
Qed.

End Footprint.


(** ** Each call, case by case of what the backing allocator answers *)

(** Read one member out of a tower of updates, settling each comparison of
    member names as soon as it appears. *)
Ltac read_members :=
  repeat (first [rewrite load_added | rewrite load_raised | rewrite load_lowered];
          cbn [Field_eqb]).

Ltac settle :=
  eexists; split; [reflexivity|]; cbn [stats backing calls wrapped];
  read_members; repeat split.

Section Cases.

Context {B : Type}.
Variable bk : ObjectAllocator B.

(** *** [alloc] *)

Lemma alloc_via_granted (c : Call) (f : B -> outcome ptr * B) (bytes : N)
      (s : Proxy B) (p : ptr) (b' : B) (u : N) :
  f (backing s) = (Ret p, b') ->
  backing_getUsedBytes bk b' = Ret u ->
  p <> nullptr ->
  exists s',
    alloc_via bk (delegate c f) bytes s = (Ret p, s') /\
    stats s' = alloc_succeeded bytes u (stats s) /\
    backing s' = b' /\
    calls s' = (calls s ++ [c]) ++ [CallGetUsedBytes] /\
    wrapped s' = wrapped s || (SIZE_MAX <? load allocC (stats s) + 1)
                 || (SIZE_MAX <? load allocB (stats s) + bytes).
Proof.
  intros Hf Hu Hp. apply N.eqb_neq in Hp.
  unfold_members. cbn. rewrite Hf. cbn. rewrite Hu. cbn. rewrite Hp. cbn.
  settle.
Qed.

Lemma alloc_via_refused (c : Call) (f : B -> outcome ptr * B) (bytes : N)
      (s : Proxy B) (b' : B) (u : N) :
  f (backing s) = (Ret nullptr, b') ->
  backing_getUsedBytes bk b' = Ret u ->
  exists s',
    alloc_via bk (delegate c f) bytes s = (Ret nullptr, s') /\
    stats s' = alloc_failed bytes (stats s) /\
    backing s' = b' /\
    calls s' = (calls s ++ [c]) ++ [CallGetUsedBytes] /\
    wrapped s' = wrapped s || (SIZE_MAX <? load allocC (stats s) + 1)
                 || (SIZE_MAX <? load alloc_failC (stats s) + 1).
Proof.
  intros Hf Hu.
  unfold_members. cbn. rewrite Hf. cbn. rewrite Hu. cbn.
  settle.
Qed.

Lemma alloc_via_threw (c : Call) (f : B -> outcome ptr * B) (bytes : N)
      (s : Proxy B) (e : exception) (b' : B) :
  f (backing s) = (Raise e, b') ->
  exists s',
    alloc_via bk (delegate c f) bytes s = (Raise e, s') /\
    stats s' = alloc_failed bytes (stats s) /\
    backing s' = b' /\
    calls s' = calls s ++ [c] /\
    wrapped s' = wrapped s || (SIZE_MAX <? load allocC (stats s) + 1)
                 || (SIZE_MAX <? load alloc_failC (stats s) + 1).
Proof.
  intros Hf.
  unfold_members. cbn. rewrite Hf. cbn.
  settle.
Qed.

Lemma alloc_via_usage_threw (c : Call) (f : B -> outcome ptr * B) (bytes : N)
      (s : Proxy B) (p : ptr) (e : exception) (b' : B) :
  f (backing s) = (Ret p, b') ->
  backing_getUsedBytes bk b' = Raise e ->
  exists s',
    alloc_via bk (delegate c f) bytes s = (Raise e, s') /\
    stats s' = alloc_failed bytes (stats s) /\
    backing s' = b' /\
    calls s' = (calls s ++ [c]) ++ [CallGetUsedBytes] /\
    wrapped s' = wrapped s || (SIZE_MAX <? load allocC (stats s) + 1)
                 || (SIZE_MAX <? load alloc_failC (stats s) + 1).
Proof.
  intros Hf Hu.
  unfold_members. cbn. rewrite Hf. cbn. rewrite Hu. cbn.
  settle.
Qed.

(** *** [realloc] *)

Lemma realloc_via_size_threw (c : Call) (f : B -> outcome ptr * B) (p : ptr)
      (bytes : N) (s : Proxy B) (e : exception) :
  backing_getAllocSize bk p (backing s) = Raise e ->
  exists s',
    realloc_via bk (delegate c f) p bytes s = (Raise e, s') /\
    stats s' = realloc_failed bytes (stats s) /\
    backing s' = backing s /\
    calls s' = calls s ++ [CallGetAllocSize p] /\
    wrapped s' = wrapped s || (SIZE_MAX <? load reallocC (stats s) + 1)
                 || (SIZE_MAX <? load realloc_failC (stats s) + 1).
Proof.
  intros Ha.
  unfold_members. cbn. rewrite Ha. cbn.
  settle.
Qed.

Lemma realloc_via_threw (c : Call) (f : B -> outcome ptr * B) (p : ptr)
      (bytes : N) (s : Proxy B) (a : N) (e : exception) (b' : B) :
  backing_getAllocSize bk p (backing s) = Ret a ->
  f (backing s) = (Raise e, b') ->
  exists s',
    realloc_via bk (delegate c f) p bytes s = (Raise e, s') /\
    stats s' = realloc_failed bytes (stats s) /\
    backing s' = b' /\
    calls s' = (calls s ++ [CallGetAllocSize p]) ++ [c] /\
    wrapped s' = wrapped s || (SIZE_MAX <? load reallocC (stats s) + 1)
                 || (SIZE_MAX <? load realloc_failC (stats s) + 1).
Proof.
  intros Ha Hf.
  unfold_members. cbn. rewrite Ha. cbn. rewrite Hf. cbn.
  settle.
Qed.

Lemma realloc_via_usage_threw (c : Call) (f : B -> outcome ptr * B) (p : ptr)
      (bytes : N) (s : Proxy B) (a : N) (q : ptr) (e : exception) (b' : B) :
  backing_getAllocSize bk p (backing s) = Ret a ->
  f (backing s) = (Ret q, b') ->
  backing_getUsedBytes bk b' = Raise e ->
  exists s',
    realloc_via bk (delegate c f) p bytes s = (Raise e, s') /\
    stats s' = realloc_failed bytes (stats s) /\
    backing s' = b' /\
    calls s' = ((calls s ++ [CallGetAllocSize p]) ++ [c]) ++ [CallGetUsedBytes] /\
    wrapped s' = wrapped s || (SIZE_MAX <? load reallocC (stats s) + 1)
                 || (SIZE_MAX <? load realloc_failC (stats s) + 1).
Proof.
  intros Ha Hf Hu.
  unfold_members. cbn. rewrite Ha. cbn. rewrite Hf. cbn. rewrite Hu. cbn.
  settle.
Qed.

Lemma realloc_via_refused (c : Call) (f : B -> outcome ptr * B) (p : ptr)
      (bytes : N) (s : Proxy B) (a u : N) (b' : B) :
  backing_getAllocSize bk p (backing s) = Ret a ->
  f (backing s) = (Ret nullptr, b') ->
  backing_getUsedBytes bk b' = Ret u ->
  exists s',
    realloc_via bk (delegate c f) p bytes s = (Ret nullptr, s') /\
    stats s' = realloc_failed bytes (stats s) /\
    backing s' = b' /\
    calls s' = ((calls s ++ [CallGetAllocSize p]) ++ [c]) ++ [CallGetUsedBytes] /\
    wrapped s' = wrapped s || (SIZE_MAX <? load reallocC (stats s) + 1)
                 || (SIZE_MAX <? load realloc_failC (stats s) + 1).
Proof.
  intros Ha Hf Hu.
  unfold_members. cbn. rewrite Ha. cbn. rewrite Hf. cbn. rewrite Hu. cbn.
  settle.
Qed.

Lemma realloc_via_resized (c : Call) (f : B -> outcome ptr * B) (p : ptr)
      (bytes : N) (s : Proxy B) (a u : N) (q : ptr) (b' : B) :
  backing_getAllocSize bk p (backing s) = Ret a ->
  f (backing s) = (Ret q, b') ->
  backing_getUsedBytes bk b' = Ret u ->
  q <> nullptr ->
  exists s',
    realloc_via bk (delegate c f) p bytes s = (Ret q, s') /\
    stats s' = realloc_succeeded p q bytes a u (stats s) /\
    backing s' = b' /\
    calls s' = ((calls s ++ [CallGetAllocSize p]) ++ [c]) ++ [CallGetUsedBytes] /\
    (wrapped s' = false ->
     wrapped s = false /\
     load reallocC (stats s) + 1 <= SIZE_MAX /\
     load allocB (stats s) + bytes <= SIZE_MAX /\
     (q <> p -> load realloc_moveC (stats s) + 1 <= SIZE_MAX /\
                load realloc_moveB (stats s) + bytes <= SIZE_MAX) /\
     (bytes < a -> load realloc_shrinkB (stats s) + (a - bytes) <= SIZE_MAX) /\
     (a < bytes -> load realloc_growthB (stats s) + (bytes - a) <= SIZE_MAX)).
Proof.
  intros Ha Hf Hu Hq. apply N.eqb_neq in Hq.
  unfold_members. cbn. rewrite Ha. cbn. rewrite Hf. cbn. rewrite Hu. cbn.
  rewrite Hq. cbn. unfold realloc_succeeded.
  destruct (q =? p) eqn:Em; cbn;
    destruct (bytes <? a) eqn:E1; cbn;
    try (destruct (a <? bytes) eqn:E2; cbn);
    (eexists; split; [reflexivity|]; cbn [stats backing calls wrapped];
     split; [reflexivity|]; split; [reflexivity|]; split; [reflexivity|];
     intros Hw;
     repeat (apply orb_false_iff in Hw; destruct Hw as [Hw ?]);
     repeat match goal with
            | Hx : (SIZE_MAX <? _) = false |- _ =>
                apply N.ltb_ge in Hx; revert Hx; read_members; intros Hx
            end;
     try (apply N.eqb_eq in Em); try (apply N.ltb_lt in E1); try (apply N.ltb_ge in E1);
     try (apply N.ltb_lt in E2); try (apply N.ltb_ge in E2);
     repeat split; try assumption; intros; try contradiction; try lia).
Qed.

(** *** [offer] *)

Lemma offer_size_threw (p : ptr) (priority : N) (s : Proxy B) (e : exception) :
  backing_getAllocSize bk p (backing s) = Raise e ->
  exists s',
    offer bk p priority s = (Raise e, s') /\
    stats s' = added offerC 1 (stats s) /\
    backing s' = backing s /\
    calls s' = calls s ++ [CallGetAllocSize p] /\
    wrapped s' = wrapped s || (SIZE_MAX <? load offerC (stats s) + 1).
Proof.
  intros Ha.
  unfold_members. cbn. rewrite Ha. cbn.
  settle.
Qed.

Lemma offer_delegated (p : ptr) (priority : N) (s : Proxy B) (a : N)
      (o : outcome ptr) (b' : B) :
  backing_getAllocSize bk p (backing s) = Ret a ->
  backing_offer bk p priority (backing s) = (o, b') ->
  exists s',
    offer bk p priority s = (o, s') /\
    stats s' = added offerB a (added offerC 1 (stats s)) /\
    backing s' = b' /\
    calls s' = (calls s ++ [CallGetAllocSize p]) ++ [CallOffer p priority] /\
    wrapped s' = wrapped s || (SIZE_MAX <? load offerC (stats s) + 1)
                 || (SIZE_MAX <? load offerB (stats s) + a).
Proof.
  intros Ha Ho.
  unfold_members. cbn. rewrite Ha. cbn. rewrite Ho. cbn.
  destruct o as [t|e]; cbn; settle.
Qed.

(** *** [reclaim] *)

Lemma reclaim_threw (p : ptr) (s : Proxy B) (e : exception) (b' : B) :
  backing_reclaim bk p (backing s) = (Raise e, b') ->
  exists s',
    reclaim bk p s = (Raise e, s') /\
    stats s' = added reclaimC 1 (stats s) /\
    backing s' = b' /\
    calls s' = calls s ++ [CallReclaim p] /\
    wrapped s' = wrapped s || (SIZE_MAX <? load reclaimC (stats s) + 1).
Proof.
  intros Hr.
  unfold_members. cbn. rewrite Hr. cbn.
  settle.
Qed.

Lemma reclaim_gone (p : ptr) (s : Proxy B) (b' : B) :
  backing_reclaim bk p (backing s) = (Ret nullptr, b') ->
  exists s',
    reclaim bk p s = (Ret nullptr, s') /\
    stats s' = added reclaim_failC 1 (added reclaimC 1 (stats s)) /\
    backing s' = b' /\
    calls s' = calls s ++ [CallReclaim p] /\
    wrapped s' = wrapped s || (SIZE_MAX <? load reclaimC (stats s) + 1)
                 || (SIZE_MAX <? load reclaim_failC (stats s) + 1).
Proof.
  intros Hr.
  unfold_members. cbn. rewrite Hr. cbn.
  settle.
Qed.

Lemma reclaim_restored (p : ptr) (s : Proxy B) (q : ptr) (a : N) (b' : B) :
  backing_reclaim bk p (backing s) = (Ret q, b') ->
  q <> nullptr ->
  backing_getAllocSize bk p b' = Ret a ->
  exists s',
    reclaim bk p s = (Ret q, s') /\
    stats s' = added reclaimB a (added reclaimC 1 (stats s)) /\
    backing s' = b' /\
    calls s' = (calls s ++ [CallReclaim p]) ++ [CallGetAllocSize p] /\
    wrapped s' = wrapped s || (SIZE_MAX <? load reclaimC (stats s) + 1)
                 || (SIZE_MAX <? load reclaimB (stats s) + a).
Proof.
  intros Hr Hq Ha. apply N.eqb_neq in Hq.
  unfold_members. cbn. rewrite Hr. cbn. rewrite Hq. cbn. rewrite Ha. cbn.
  settle.
Qed.

Lemma reclaim_size_threw (p : ptr) (s : Proxy B) (q : ptr) (e : exception) (b' : B) :
  backing_reclaim bk p (backing s) = (Ret q, b') ->
  q <> nullptr ->
  backing_getAllocSize bk p b' = Raise e ->
  exists s',
    reclaim bk p s = (Raise e, s') /\
    stats s' = added reclaimC 1 (stats s) /\
    backing s' = b' /\
    calls s' = (calls s ++ [CallReclaim p]) ++ [CallGetAllocSize p] /\
    wrapped s' = wrapped s || (SIZE_MAX <? load reclaimC (stats s) + 1).
Proof.
  intros Hr Hq Ha. apply N.eqb_neq in Hq.
  unfold_members. cbn. rewrite Hr. cbn. rewrite Hq. cbn. rewrite Ha. cbn.
  settle.
Qed.

End Cases.


(** ** The wrap-around flag is never cleared *)

Lemma sticky_refl {B} (s : Proxy B) : sticky s s.
Proof. intros H. exact H. Qed.

Lemma sticky_trans {B} (s1 s2 s3 : Proxy B) :
  sticky s1 s2 -> sticky s2 s3 -> sticky s1 s3.
Proof. unfold sticky. auto. Qed.

Lemma sticky_fetch_add {B} (f : Field) (k : N) : keeps (@sticky B) (fetch_add f k).
Proof.
  intros s. unfold sticky, effect, fetch_add. simpl. intros H.
  apply orb_false_iff in H. apply H.
Qed.

Lemma sticky_raise_to {B} (f : Field) (v : N) : keeps (@sticky B) (raise_to f v).
Proof. intros s H. exact H. Qed.

Lemma sticky_lower_to {B} (f : Field) (v : N) : keeps (@sticky B) (lower_to f v).
Proof. intros s H. exact H. Qed.

Lemma sticky_delegate {B A} (c : Call) (h : B -> outcome A * B) :
  keeps (@sticky B) (delegate c h).
Proof.
  intros s. unfold sticky, effect, delegate.
  destruct (h (backing s)) as [r b']. simpl. auto.
Qed.

Lemma sticky_delegate_const {B A} (c : Call) (h : B -> outcome A) :
  keeps (@sticky B) (delegate_const c h).
Proof. intros s H. exact H. Qed.

Lemma sticky_resetCounters {B} : keeps (@sticky B) resetCounters.
Proof. intros s H. exact H. Qed.

Ltac stick :=
  repeat first
    [ apply (keeps_bind _ sticky_trans)
    | apply (keeps_try_catch _ sticky_trans)
    | apply (keeps_ret _ sticky_refl)
    | apply (keeps_rethrow _ sticky_refl)
    | apply keeps_if
    | apply sticky_fetch_add
    | apply sticky_raise_to
    | apply sticky_lower_to
    | apply sticky_delegate
    | apply sticky_delegate_const
    | apply sticky_resetCounters
    | intro ].

Section Sticky.

Context {B : Type}.
Variable bk : ObjectAllocator B.

Lemma sticky_exec (op : Op) (s : Proxy B) : sticky s (exec bk op s).
Proof.
  destruct op as [bytes [d|] align| |p bytes [d|] align| | | | | | | | | | |];
    cbn [exec alloc_overload realloc_overload];
    unfold alloc, alloc_destructor, realloc, realloc_destructor, alloc_via,
      realloc_via, offer, reclaim, reset, clear, purge, free, getAllocSize,
      getUsedBytes, getFreeBytes, getPendingBytes, getTotalBytes;
    match goal with
    | |- sticky ?s0 (effect ?m ?s0) => generalize s0; change (keeps sticky m); stick
    end.
Qed.

Lemma sticky_run (ops : list Op) (s : Proxy B) : sticky s (run bk ops s).
Proof.
  revert s. induction ops as [|op ops IH]; intros s; simpl.
  - apply sticky_refl.
  - eapply sticky_trans; [apply sticky_exec|apply IH].
Qed.

End Sticky.

(** ** Relations among the counters *)

Lemma consistent_zeroed : consistent zeroed.
Proof.
  unfold consistent. rewrite !load_zeroed. unfold SIZE_MAX.
  repeat split; lia.
Qed.

Ltac unwrap :=
  repeat match goal with
         | H : ?x <= SIZE_MAX |- context [wrap ?x] => rewrite (wrap_small x H)
         end.

Lemma consistent_alloc_succeeded (bytes u : N) (c : Counters) :
  consistent c ->
  load allocC c + 1 <= SIZE_MAX ->
  load allocB c + bytes <= SIZE_MAX ->
  consistent (alloc_succeeded bytes u c).
Proof.
  unfold consistent, alloc_succeeded.
  intros (H1 & H2 & H3 & H4 & H5 & H6 & H7 & H8 & H9) Ha Hb.
  read_members. unwrap.
  repeat split; try lia.
Qed.

Lemma consistent_alloc_failed (bytes : N) (c : Counters) :
  consistent c ->
  load allocC c + 1 <= SIZE_MAX ->
  load alloc_failC c + 1 <= SIZE_MAX ->
  consistent (alloc_failed bytes c).
Proof.
  unfold consistent, alloc_failed.
  intros (H1 & H2 & H3 & H4 & H5 & H6 & H7 & H8 & H9) Ha Hb.
  read_members. unwrap.
  repeat split; try lia.
Qed.


Lemma consistent_realloc_failed (bytes : N) (c : Counters) :
  consistent c ->
  load reallocC c + 1 <= SIZE_MAX ->
  load realloc_failC c + 1 <= SIZE_MAX ->
  consistent (realloc_failed bytes c).
Proof.
  unfold consistent, realloc_failed.
  intros (H1 & H2 & H3 & H4 & H5 & H6 & H7 & H8 & H9) Ha Hb.
  read_members. unwrap.
  repeat split; try lia.
Qed.

Lemma consistent_realloc_succeeded (p q : ptr) (bytes a u : N) (c : Counters) :
  consistent c ->
  load reallocC c + 1 <= SIZE_MAX ->
  load allocB c + bytes <= SIZE_MAX ->
  (q <> p -> load realloc_moveC c + 1 <= SIZE_MAX /\
             load realloc_moveB c + bytes <= SIZE_MAX) ->
  (bytes < a -> load realloc_shrinkB c + (a - bytes) <= SIZE_MAX) ->
  (a < bytes -> load realloc_growthB c + (bytes - a) <= SIZE_MAX) ->
  consistent (realloc_succeeded p q bytes a u c).
Proof.
  unfold consistent, realloc_succeeded.
  intros (H1 & H2 & H3 & H4 & H5 & H6 & H7 & H8 & H9) Ha Hb Hm Hs Hg.
  destruct (q =? p) eqn:Em; cbn [negb];
    [|apply N.eqb_neq in Em; destruct (Hm Em) as [Hm1 Hm2]];
    (destruct (bytes <? a) eqn:E1;
     [apply N.ltb_lt in E1; specialize (Hs E1)
     |destruct (a <? bytes) eqn:E2;
      [apply N.ltb_lt in E2; specialize (Hg E2)|]]);
    read_members; unwrap; repeat split; try lia.
Qed.

Lemma consistent_added_other (f : Field) (k : N) (c : Counters) :
  consistent c ->
  (f = offerC \/ f = offerB \/ f = reclaimB) ->
  consistent (added f k c).
Proof.
  unfold consistent.
  intros H [->|[->| ->]]; read_members; exact H.
Qed.

Lemma consistent_reclaim_counted (c : Counters) :
  consistent c ->
  load reclaimC c + 1 <= SIZE_MAX ->
  consistent (added reclaimC 1 c).
Proof.
  unfold consistent.
  intros (H1 & H2 & H3 & H4 & H5 & H6 & H7 & H8 & H9) Ha.
  read_members. unwrap. repeat split; try lia.
Qed.

Lemma consistent_reclaim_failed (c : Counters) :
  consistent c ->
  load reclaimC c + 1 <= SIZE_MAX ->
  load reclaim_failC c + 1 <= SIZE_MAX ->
  consistent (added reclaim_failC 1 (added reclaimC 1 c)).
Proof.
  unfold consistent.
  intros (H1 & H2 & H3 & H4 & H5 & H6 & H7 & H8 & H9) Ha Hb.
  read_members. unwrap. repeat split; try lia.
Qed.

(** From a flag that is still down, the sums that did not overflow. *)
Ltac flag_down H :=
  repeat (apply orb_false_iff in H; let H' := fresh "Hsum" in destruct H as [H H']);
  repeat match goal with
         | Hx : (SIZE_MAX <? _) = false |- _ => apply N.ltb_ge in Hx
         end.

Section Consistency.

Context {B : Type}.
Variable bk : ObjectAllocator B.

Lemma consistent_alloc_via (c : Call) (f : B -> outcome ptr * B) (bytes : N)
      (s : Proxy B) :
  consistent (stats s) ->
  wrapped (effect (alloc_via bk (delegate c f) bytes) s) = false ->
  consistent (stats (effect (alloc_via bk (delegate c f) bytes) s)).
Proof.
  intros Hc. unfold effect.
  destruct (f (backing s)) as [[p|e] b'] eqn:Hf.
  - destruct (backing_getUsedBytes bk b') as [u|e] eqn:Hu.
    + destruct (N.eq_dec p nullptr) as [->|Hp].
      * destruct (alloc_via_refused bk c f bytes s b' u Hf Hu)
          as (s' & Hcall & Hs & _ & _ & Hw').
        rewrite Hcall. cbn [snd]. intros Hw. rewrite Hw' in Hw. flag_down Hw.
        rewrite Hs. apply consistent_alloc_failed; assumption.
      * destruct (alloc_via_granted bk c f bytes s p b' u Hf Hu Hp)
          as (s' & Hcall & Hs & _ & _ & Hw').
        rewrite Hcall. cbn [snd]. intros Hw. rewrite Hw' in Hw. flag_down Hw.
        rewrite Hs. apply consistent_alloc_succeeded; assumption.
    + destruct (alloc_via_usage_threw bk c f bytes s p e b' Hf Hu)
        as (s' & Hcall & Hs & _ & _ & Hw').
      rewrite Hcall. cbn [snd]. intros Hw. rewrite Hw' in Hw. flag_down Hw.
      rewrite Hs. apply consistent_alloc_failed; assumption.
  - destruct (alloc_via_threw bk c f bytes s e b' Hf)
      as (s' & Hcall & Hs & _ & _ & Hw').
    rewrite Hcall. cbn [snd]. intros Hw. rewrite Hw' in Hw. flag_down Hw.
    rewrite Hs. apply consistent_alloc_failed; assumption.
Qed.

Lemma consistent_realloc_via (c : Call) (f : B -> outcome ptr * B) (p : ptr)
      (bytes : N) (s : Proxy B) :
  consistent (stats s) ->
  wrapped (effect (realloc_via bk (delegate c f) p bytes) s) = false ->
  consistent (stats (effect (realloc_via bk (delegate c f) p bytes) s)).
Proof.
  intros Hc. unfold effect.
  destruct (backing_getAllocSize bk p (backing s)) as [a|e] eqn:Ha.
  - destruct (f (backing s)) as [[q|e] b'] eqn:Hf.
    + destruct (backing_getUsedBytes bk b') as [u|e] eqn:Hu.
      * destruct (N.eq_dec q nullptr) as [->|Hq].
        -- destruct (realloc_via_refused bk c f p bytes s a u b' Ha Hf Hu)
             as (s' & Hcall & Hs & _ & _ & Hw').
           rewrite Hcall. cbn [snd]. intros Hw. rewrite Hw' in Hw. flag_down Hw.
           rewrite Hs. apply consistent_realloc_failed; assumption.
        -- destruct (realloc_via_resized bk c f p bytes s a u q b' Ha Hf Hu Hq)
             as (s' & Hcall & Hs & _ & _ & Hw').
           rewrite Hcall. cbn [snd]. intros Hw.
           destruct (Hw' Hw) as (_ & H1 & H2 & H3 & H4 & H5).
           rewrite Hs. apply consistent_realloc_succeeded; assumption.
      * destruct (realloc_via_usage_threw bk c f p bytes s a q e b' Ha Hf Hu)
          as (s' & Hcall & Hs & _ & _ & Hw').
        rewrite Hcall. cbn [snd]. intros Hw. rewrite Hw' in Hw. flag_down Hw.
        rewrite Hs. apply consistent_realloc_failed; assumption.
    + destruct (realloc_via_threw bk c f p bytes s a e b' Ha Hf)
        as (s' & Hcall & Hs & _ & _ & Hw').
      rewrite Hcall. cbn [snd]. intros Hw. rewrite Hw' in Hw. flag_down Hw.
      rewrite Hs. apply consistent_realloc_failed; assumption.
  - destruct (realloc_via_size_threw bk c f p bytes s e Ha)
      as (s' & Hcall & Hs & _ & _ & Hw').
    rewrite Hcall. cbn [snd]. intros Hw. rewrite Hw' in Hw. flag_down Hw.
    rewrite Hs. apply consistent_realloc_failed; assumption.
Qed.

Lemma consistent_offer (p : ptr) (priority : N) (s : Proxy B) :
  consistent (stats s) ->
  consistent (stats (effect (offer bk p priority) s)).
Proof.
  intros Hc. unfold effect.
  destruct (backing_getAllocSize bk p (backing s)) as [a|e] eqn:Ha.
  - destruct (backing_offer bk p priority (backing s)) as [o b'] eqn:Ho.
    destruct (offer_delegated bk p priority s a o b' Ha Ho) as (s' & Hcall & Hs & _).
    rewrite Hcall. cbn [snd]. rewrite Hs.
    apply consistent_added_other; [|tauto].
    apply consistent_added_other; [exact Hc|tauto].
  - destruct (offer_size_threw bk p priority s e Ha) as (s' & Hcall & Hs & _).
    rewrite Hcall. cbn [snd]. rewrite Hs.
    apply consistent_added_other; [exact Hc|tauto].
Qed.

Lemma consistent_reclaim (p : ptr) (s : Proxy B) :
  consistent (stats s) ->
  wrapped (effect (reclaim bk p) s) = false ->
  consistent (stats (effect (reclaim bk p) s)).
Proof.
  intros Hc. unfold effect.
  destruct (backing_reclaim bk p (backing s)) as [[q|e] b'] eqn:Hr.
  - destruct (N.eq_dec q nullptr) as [->|Hq].
    + destruct (reclaim_gone bk p s b' Hr) as (s' & Hcall & Hs & _ & _ & Hw').
      rewrite Hcall. cbn [snd]. intros Hw. rewrite Hw' in Hw. flag_down Hw.
      rewrite Hs. apply consistent_reclaim_failed; assumption.
    + destruct (backing_getAllocSize bk p b') as [a|e] eqn:Ha.
      * destruct (reclaim_restored bk p s q a b' Hr Hq Ha)
          as (s' & Hcall & Hs & _ & _ & Hw').
        rewrite Hcall. cbn [snd]. intros Hw. rewrite Hw' in Hw. flag_down Hw.
        rewrite Hs. apply consistent_added_other; [|tauto].
        apply consistent_reclaim_counted; assumption.
      * destruct (reclaim_size_threw bk p s q e b' Hr Hq Ha)
          as (s' & Hcall & Hs & _ & _ & Hw').
        rewrite Hcall. cbn [snd]. intros Hw. rewrite Hw' in Hw. flag_down Hw.
        rewrite Hs. apply consistent_reclaim_counted; assumption.
  - destruct (reclaim_threw bk p s e b' Hr) as (s' & Hcall & Hs & _ & _ & Hw').
    rewrite Hcall. cbn [snd]. intros Hw. rewrite Hw' in Hw. flag_down Hw.
    rewrite Hs. apply consistent_reclaim_counted; assumption.
Qed.

Lemma untouched_stats_free (s : Proxy B) (p : ptr) :
  stats (effect (free bk p) s) = stats s.
Proof.
  unfold effect, free, delegate.
  destruct (backing_free bk p (backing s)) as [r b']. reflexivity.
Qed.

Lemma untouched_stats_purge (s : Proxy B) (priority : N) :
  stats (effect (purge bk priority) s) = stats s.
Proof.
  unfold effect, purge, delegate.
  destruct (backing_purge bk priority (backing s)) as [r b']. reflexivity.
Qed.

Lemma stats_after_reset (s : Proxy B) :
  stats (effect (reset bk) s) = zeroed /\ stats (effect (clear bk) s) = zeroed.
Proof.
  unfold effect, reset, clear, resetCounters, bind, delegate. simpl.
  destruct (backing_reset bk (backing s)) as [[[]|e1] b1];
    destruct (backing_clear bk (backing s)) as [[[]|e2] b2]; simpl; split; reflexivity.
Qed.

Lemma consistent_exec (op : Op) (s : Proxy B) :
  consistent (stats s) ->
  wrapped (exec bk op s) = false ->
  consistent (stats (exec bk op s)).
Proof.
  intros Hc.
  destruct op as [bytes [d|] align|p|p bytes [d|] align|p|p priority|p| |priority| | | | | |];
    cbn [exec alloc_overload realloc_overload].
  - apply consistent_alloc_via. exact Hc.
  - apply consistent_alloc_via. exact Hc.
  - intros _. rewrite (untouched_stats_free s p). exact Hc.
  - apply consistent_realloc_via. exact Hc.
  - apply consistent_realloc_via. exact Hc.
  - intros _. exact Hc.
  - intros _. apply consistent_offer. exact Hc.
  - apply consistent_reclaim. exact Hc.
  - intros _. rewrite (proj1 (stats_after_reset s)). apply consistent_zeroed.
  - intros _. rewrite (untouched_stats_purge s priority). exact Hc.
  - intros _. rewrite (proj2 (stats_after_reset s)). apply consistent_zeroed.
  - intros _. exact Hc.
  - intros _. exact Hc.
  - intros _. exact Hc.
  - intros _. exact Hc.
  - intros _. apply consistent_zeroed.
Qed.

Lemma consistent_run (ops : list Op) (s : Proxy B) :
  consistent (stats s) ->
  wrapped (run bk ops s) = false ->
  consistent (stats (run bk ops s)).
Proof.
  revert s. induction ops as [|op ops IH]; intros s Hc Hw; simpl in *.
  - exact Hc.
  - apply IH; [|exact Hw].
    apply consistent_exec; [exact Hc|].
    exact (sticky_run bk ops _ Hw).
Qed.

End Consistency.


(** ** What a user of the proxy can rely on *)

Lemma read_of_load (f : Field) (c c' : Counters) :
  load f c' = load f c -> read f c' = read f c.
Proof.
  destruct f; intros H; try exact H.
  unfold read, getSmallestAlloc. rewrite H. reflexivity.
Qed.

Section Reliance.

Context {B : Type}.
Variable bk : ObjectAllocator B.

(** X1. Failures never outnumber calls.  After any workload on a new proxy,
    resets included, and as long as no sum has wrapped around 2^64: the failed
    allocations are at most the [alloc] calls, the failed reallocations plus
    the relocations are at most the [realloc] calls, and the failed reclaims
    are at most the [reclaim] calls. *)
Theorem failures_never_outnumber_calls (ops : list Op) (b : B) :
  wrapped (run bk ops (AllocatorStatistic b)) = false ->
  let c := stats (run bk ops (AllocatorStatistic b)) in
  getTotalAllocFails c <= getTotalAllocs c /\
  getTotalReallocFails c + getTotalReallocMoves c <= getTotalReallocs c /\
  getTotalReclaimFails c <= getTotalReclaims c.
Proof.
  intros Hw c. subst c.
  destruct (consistent_run bk ops (AllocatorStatistic b) consistent_zeroed Hw)
    as (H1 & H2 & H3 & _).
  repeat split; assumption.
Qed.

(** X2. The size statistics agree with each other.  After any workload on a new
    proxy, while no sum has wrapped around: the smallest allocation read is at
    most the largest, the largest is at most the bytes allocated, and the
    relocated bytes and the growth bytes are each at most the bytes
    allocated. *)
Theorem size_statistics_agree (ops : list Op) (b : B) :
  wrapped (run bk ops (AllocatorStatistic b)) = false ->
  let c := stats (run bk ops (AllocatorStatistic b)) in
  getSmallestAlloc c <= getLargestAlloc c /\
  getLargestAlloc c <= getTotalAllocBytes c /\
  getTotalReallocMoved c <= getTotalAllocBytes c /\
  getTotalReallocGrowth c <= getTotalAllocBytes c.
Proof.
  intros Hw c. subst c.
  destruct (consistent_run bk ops (AllocatorStatistic b) consistent_zeroed Hw)
    as (_ & _ & _ & H4 & H5 & H6 & H7 & _).
  repeat split; try assumption.
  unfold getSmallestAlloc, getLargestAlloc.
  destruct (load smallest _ =? SIZE_MAX) eqn:E; cbn [negb].
  - apply N.le_0_l.
  - apply N.eqb_neq in E. destruct H4 as [H4|H4]; [contradiction|exact H4].
Qed.

(** X3. When every call so far has failed, the success statistics are as on a
    new proxy.  After any workload on a new proxy, while no sum has wrapped
    around: if all [alloc] calls and all [realloc] calls failed, the smallest
    and largest allocation, the highest usage and the bytes allocated all
    read 0; and if none has failed, the largest failed size reads 0. *)
Theorem statistics_of_one_outcome_only (ops : list Op) (b : B) :
  wrapped (run bk ops (AllocatorStatistic b)) = false ->
  let c := stats (run bk ops (AllocatorStatistic b)) in
  (getTotalAllocs c = getTotalAllocFails c ->
   getTotalReallocs c = getTotalReallocFails c ->
   getSmallestAlloc c = 0 /\ getLargestAlloc c = 0 /\
   getHighestUsage c = 0 /\ getTotalAllocBytes c = 0) /\
  (getTotalAllocFails c = 0 -> getTotalReallocFails c = 0 ->
   getLargestAllocFailed c = 0).
Proof.
  intros Hw c. subst c.
  destruct (consistent_run bk ops (AllocatorStatistic b) consistent_zeroed Hw)
    as (_ & _ & _ & _ & _ & _ & _ & H8 & H9).
  split; [|exact H9].
  intros Ha Hr. destruct (H8 Ha Hr) as (Hs & Hl & Hh & Hb).
  unfold getSmallestAlloc. rewrite Hs, N.eqb_refl. cbn [negb].
  repeat split; assumption.
Qed.

(** *** The call counters *)

Lemma counted_after_fetch_add {A} (f : Field) (m : M B A) (s : Proxy B) :
  keeps (untouched f) m ->
  load f (stats (effect (fetch_add f 1 ;; m) s)) = wrap (load f (stats s) + 1).
Proof.
  intros Hm. unfold effect, bind. cbn [fetch_add].
  specialize (Hm (mkProxy (added f 1 (stats s)) (backing s) (calls s)
                          (wrapped s || (SIZE_MAX <? load f (stats s) + 1)))).
  unfold untouched, effect in Hm.
  destruct (m _) as [[a|e] s1]; cbn [snd stats] in *;
    rewrite Hm, load_added; destruct f; reflexivity.
Qed.

Lemma counted_exec (op : Op) (f : Field) (s : Proxy B) :
  counted_by op = Some f ->
  load f (stats (exec bk op s)) = wrap (load f (stats s) + 1).
Proof.
  intros Hop.
  destruct op as [bytes [d|] align| |p bytes [d|] align| | | | | | | | | | |];
    inversion Hop; subst f; cbn [exec alloc_overload realloc_overload];
    unfold alloc, alloc_destructor, realloc, realloc_destructor, alloc_via,
      realloc_via, offer, reclaim, getAllocSize, getUsedBytes;
    apply counted_after_fetch_add;
    match goal with |- keeps (untouched ?g) _ => leave_alone g end.
Qed.

Lemma count_calls_cons (f : Field) (op : Op) (ops : list Op) :
  count_calls f (op :: ops) =
  (match counted_by op with
   | Some g => if Field_eqb g f then 1 else 0
   | None => 0
   end) + count_calls f ops.
Proof.
  unfold count_calls. cbn [filter].
  destruct (counted_by op) as [g|]; [destruct (Field_eqb g f)|]; cbn [length]; lia.
Qed.

Lemma call_counter_run (f : Field) (ops : list Op) (s : Proxy B) :
  (f = allocC \/ f = reallocC \/ f = offerC \/ f = reclaimC) ->
  forallb (fun op => negb (resets op)) ops = true ->
  load f (stats s) <= SIZE_MAX ->
  load f (stats (run bk ops s)) = wrap (load f (stats s) + count_calls f ops).
Proof.
  intros Hf. revert s. induction ops as [|op ops IH]; intros s Hops Hr.
  - simpl. unfold count_calls. simpl. rewrite N.add_0_r, wrap_small by exact Hr.
    reflexivity.
  - simpl in Hops. apply andb_true_iff in Hops. destruct Hops as [Hop Hops].
    apply negb_true_iff in Hop.
    cbn [run fold_left]. change (fold_left (fun s0 op0 => exec bk op0 s0) ops (exec bk op s))
      with (run bk ops (exec bk op s)).
    rewrite count_calls_cons.
    destruct (counted_by op) as [g|] eqn:Eg;
      [destruct (Field_eqb g f) eqn:E; [apply Field_eqb_eq in E; subst g|]|].
    + pose proof (counted_exec op f s Eg) as H1.
      rewrite IH; [|exact Hops|rewrite H1; apply wrap_le].
      rewrite H1, wrap_add_wrap. f_equal. lia.
    + assert (H1 : load f (stats (exec bk op s)) = load f (stats s)).
      { apply untouched_exec.
        assert (Hne : g <> f).
        { intros ->. destruct f; discriminate E. }
        destruct op; try discriminate Hop; try discriminate Eg;
          inversion Eg; subst g;
          destruct Hf as [->|[->|[->| ->]]]; try reflexivity;
          exfalso; apply Hne; reflexivity. }
      rewrite IH; [|exact Hops|rewrite H1; exact Hr].
      rewrite H1. f_equal.
    + assert (H1 : load f (stats (exec bk op s)) = load f (stats s)).
      { apply untouched_exec.
        destruct op; try discriminate Hop; try discriminate Eg;
          destruct Hf as [->|[->|[->| ->]]]; reflexivity. }
      rewrite IH; [|exact Hops|rewrite H1; exact Hr].
      rewrite H1. f_equal.
Qed.

(** X4. The call counters count the calls.  From a proxy whose counters are at
    their reset values (a new proxy, or any proxy right after
    [resetCounters], [reset] or [clear]), after a workload without a further
    reset: each of the four call counters holds, as a 64-bit counter, the
    number of calls of its kind in the workload, whether they returned a
    pointer, returned [nullptr] or threw. *)
Theorem call_counters_count_the_calls (s : Proxy B) (ops : list Op) :
  stats s = zeroed ->
  forallb (fun op => negb (resets op)) ops = true ->
  let c := stats (run bk ops s) in
  getTotalAllocs c = wrap (count_calls allocC ops) /\
  getTotalReallocs c = wrap (count_calls reallocC ops) /\
  getTotalOffers c = wrap (count_calls offerC ops) /\
  getTotalReclaims c = wrap (count_calls reclaimC ops).
Proof.
  intros Hs Hops c. subst c.
  assert (H0 : (0 : N) <= SIZE_MAX) by (unfold SIZE_MAX; lia).
  unfold getTotalAllocs, getTotalReallocs, getTotalOffers, getTotalReclaims.
  repeat split;
    (rewrite call_counter_run;
     [rewrite Hs, load_zeroed, N.add_0_l; reflexivity
     |tauto
     |exact Hops
     |rewrite Hs, load_zeroed; exact H0]).
Qed.

(** X5. A call writes only the members of its own kind: for every call and
    every member outside [touches], the member, and the accessor that reads
    it, are as before the call.  So [alloc] never changes a reallocation,
    offer or reclaim statistic, [realloc] never changes the [alloc] call and
    failure counters, and [offer] and [reclaim] change nothing but their own
    counters; the queries, [free] and [purge] change nothing. *)
Theorem a_call_writes_only_its_own_members (op : Op) (f : Field) (s : Proxy B) :
  touches op f = false ->
  load f (stats (exec bk op s)) = load f (stats s) /\
  read f (stats (exec bk op s)) = read f (stats s).
Proof.
  intros Hop. pose proof (untouched_exec bk op f s Hop) as H.
  split; [exact H|]. apply read_of_load. exact H.
Qed.

End Reliance.


Section Transparency.

Context {B : Type}.
Variable bk : ObjectAllocator B.

Lemma call_exec (op : Op) (s : Proxy B) : snd (call bk op s) = exec bk op s.
Proof.
  destruct op; unfold call, exec, effect;
    match goal with |- snd (let '(_, _) := ?m in _) = _ => destruct m; reflexivity end.
Qed.

Lemma alloc_via_direct (c : Call) (f : B -> outcome ptr * B) (bytes : N) (s : Proxy B) :
  (forall b, exists u, backing_getUsedBytes bk b = Ret u) ->
  fst (alloc_via bk (delegate c f) bytes s) = fst (f (backing s)) /\
  backing (snd (alloc_via bk (delegate c f) bytes s)) = snd (f (backing s)).
Proof.
  intros Hused.
  destruct (f (backing s)) as [[p|e] b'] eqn:Hf.
  - destruct (Hused b') as [u Hu].
    destruct (N.eq_dec p nullptr) as [->|Hp].
    + destruct (alloc_via_refused bk c f bytes s b' u Hf Hu) as (s' & Hc & _ & Hb & _).
      rewrite Hc. split; [reflexivity|exact Hb].
    + destruct (alloc_via_granted bk c f bytes s p b' u Hf Hu Hp)
        as (s' & Hc & _ & Hb & _).
      rewrite Hc. split; [reflexivity|exact Hb].
  - destruct (alloc_via_threw bk c f bytes s e b' Hf) as (s' & Hc & _ & Hb & _).
    rewrite Hc. split; [reflexivity|exact Hb].
Qed.

Lemma realloc_via_direct (c : Call) (f : B -> outcome ptr * B) (p : ptr) (bytes : N)
      (s : Proxy B) :
  (forall q b, exists v, backing_getAllocSize bk q b = Ret v) ->
  (forall b, exists u, backing_getUsedBytes bk b = Ret u) ->
  fst (realloc_via bk (delegate c f) p bytes s) = fst (f (backing s)) /\
  backing (snd (realloc_via bk (delegate c f) p bytes s)) = snd (f (backing s)).
Proof.
  intros Hsize Hused.
  destruct (Hsize p (backing s)) as [a Ha].
  destruct (f (backing s)) as [[q|e] b'] eqn:Hf.
  - destruct (Hused b') as [u Hu].
    destruct (N.eq_dec q nullptr) as [->|Hq].
    + destruct (realloc_via_refused bk c f p bytes s a u b' Ha Hf Hu)
        as (s' & Hc & _ & Hb & _).
      rewrite Hc. split; [reflexivity|exact Hb].
    + destruct (realloc_via_resized bk c f p bytes s a u q b' Ha Hf Hu Hq)
        as (s' & Hc & _ & Hb & _).
      rewrite Hc. split; [reflexivity|exact Hb].
  - destruct (realloc_via_threw bk c f p bytes s a e b' Ha Hf) as (s' & Hc & _ & Hb & _).
    rewrite Hc. split; [reflexivity|exact Hb].
Qed.

Lemma call_direct (op : Op) (s : Proxy B) :
  (forall q b, exists v, backing_getAllocSize bk q b = Ret v) ->
  (forall b, exists u, backing_getUsedBytes bk b = Ret u) ->
  fst (call bk op s) = fst (direct bk op (backing s)) /\
  backing (snd (call bk op s)) = snd (direct bk op (backing s)).
Proof.
  intros Hsize Hused.
  destruct op as [bytes [d|] align|p|p bytes [d|] align|p|p priority|p| |priority| | | | | |];
    unfold call, direct;
    cbn [alloc_overload realloc_overload backing_alloc_overload].
  - destruct (alloc_via_direct (CallAllocDestructor bytes d align)
                (backing_alloc_destructor bk bytes d align) bytes s Hused) as [H1 H2].
    unfold alloc_destructor.
    destruct (alloc_via _ _ _ _) as [o s'].
    destruct (backing_alloc_destructor _ _ _ _ _) as [o' b'].
    cbn [fst snd] in *. subst. split; reflexivity.
  - destruct (alloc_via_direct (CallAlloc bytes align)
                (backing_alloc bk bytes align) bytes s Hused) as [H1 H2].
    unfold alloc.
    destruct (alloc_via _ _ _ _) as [o s'].
    destruct (backing_alloc _ _ _ _) as [o' b'].
    cbn [fst snd] in *. subst. split; reflexivity.
  - unfold free, delegate.
    destruct (backing_free bk p (backing s)) as [o b']. split; reflexivity.
  - destruct (realloc_via_direct (CallReallocDestructor p bytes d align)
                (backing_realloc_destructor bk p bytes d align) p bytes s Hsize Hused)
      as [H1 H2].
    unfold realloc_destructor.
    destruct (realloc_via _ _ _ _ _) as [o s'].
    destruct (backing_realloc_destructor _ _ _ _ _ _) as [o' b'].
    cbn [fst snd] in *. subst. split; reflexivity.
  - destruct (realloc_via_direct (CallRealloc p bytes align)
                (backing_realloc bk p bytes align) p bytes s Hsize Hused)
      as [H1 H2].
    unfold realloc.
    destruct (realloc_via _ _ _ _ _) as [o s'].
    destruct (backing_realloc _ _ _ _ _) as [o' b'].
    cbn [fst snd] in *. subst. split; reflexivity.
  - split; reflexivity.
  - destruct (Hsize p (backing s)) as [a Ha].
    destruct (backing_offer bk p priority (backing s)) as [o b'] eqn:Ho.
    destruct (offer_delegated bk p priority s a o b' Ha Ho) as (s' & Hc & _ & Hb & _).
    rewrite Hc. split; [reflexivity|exact Hb].
  - destruct (backing_reclaim bk p (backing s)) as [[q|e] b'] eqn:Hr.
    + destruct (N.eq_dec q nullptr) as [->|Hq].
      * destruct (reclaim_gone bk p s b' Hr) as (s' & Hc & _ & Hb & _).
        rewrite Hc. split; [reflexivity|exact Hb].
      * destruct (Hsize p b') as [a Ha].
        destruct (reclaim_restored bk p s q a b' Hr Hq Ha) as (s' & Hc & _ & Hb & _).
        rewrite Hc. split; [reflexivity|exact Hb].
    + destruct (reclaim_threw bk p s e b' Hr) as (s' & Hc & _ & Hb & _).
      rewrite Hc. split; [reflexivity|exact Hb].
  - unfold reset, resetCounters, bind, delegate. cbn.
    destruct (backing_reset bk (backing s)) as [o b']. split; reflexivity.
  - unfold purge, delegate.
    destruct (backing_purge bk priority (backing s)) as [o b']. split; reflexivity.
  - unfold clear, resetCounters, bind, delegate. cbn.
    destruct (backing_clear bk (backing s)) as [o b']. split; reflexivity.
  - split; reflexivity.
  - split; reflexivity.
  - split; reflexivity.
  - split; reflexivity.
  - split; reflexivity.
Qed.

(** X6. The proxy is transparent.  Over a backing allocator whose size and
    usage queries do not throw, every workload gets through the proxy the
    very answers (pointers, sizes, exceptions) it would get from the backing
    allocator called directly, and leaves the backing allocator in the very
    state the direct calls would: the statistics never change what a call
    does. *)
Theorem the_proxy_is_transparent (ops : list Op) (s : Proxy B) :
  (forall q b, exists v, backing_getAllocSize bk q b = Ret v) ->
  (forall b, exists u, backing_getUsedBytes bk b = Ret u) ->
  answers bk ops s = direct_answers bk ops (backing s) /\
  backing (run bk ops s) = direct_run bk ops (backing s).
Proof.
  intros Hsize Hused. revert s.
  induction ops as [|op ops IH]; intros s.
  - split; reflexivity.
  - destruct (call_direct op s Hsize Hused) as [Ha Hb].
    destruct (IH (snd (call bk op s))) as [IHa IHb].
    cbn [answers direct_answers run direct_run fold_left].
    rewrite <- call_exec.
    split.
    + rewrite Ha, IHa, Hb. reflexivity.
    + unfold run, direct_run in IHb. rewrite IHb, Hb. reflexivity.
Qed.

End Transparency.


Section Accounting.

Context {B : Type}.
Variable bk : ObjectAllocator B.

(** The call an overload delegates. *)
Lemma alloc_overload_via (bytes : N) (d : option DestructorPtr) (align : N) :
  exists c, alloc_overload bk bytes d align
            = alloc_via bk (delegate c (backing_alloc_overload bk bytes d align)) bytes.
Proof. destruct d as [d|]; eexists; reflexivity. Qed.

Lemma realloc_overload_via (p : ptr) (bytes : N) (d : option DestructorPtr) (align : N) :
  exists c f, realloc_overload bk p bytes d align = realloc_via bk (delegate c f) p bytes.
Proof. destruct d as [d|]; do 2 eexists; reflexivity. Qed.

Lemma alloc_overload_granted_inv (bytes : N) (d : option DestructorPtr) (align : N)
      (s s' : Proxy B) (p : ptr) :
  alloc_overload bk bytes d align s = (Ret p, s') ->
  p <> nullptr ->
  exists u,
    backing_alloc_overload bk bytes d align (backing s) = (Ret p, backing s') /\
    backing_getUsedBytes bk (backing s') = Ret u /\
    stats s' = alloc_succeeded bytes u (stats s).
Proof.
  intros H Hp. destruct (alloc_overload_via bytes d align) as [c Hc].
  rewrite Hc in H. clear Hc.
  set (f := backing_alloc_overload bk bytes d align) in *.
  destruct (f (backing s)) as [[q|e] b'] eqn:Hf.
  - destruct (backing_getUsedBytes bk b') as [u|e] eqn:Hu.
    + destruct (N.eq_dec q nullptr) as [->|Hq].
      * destruct (alloc_via_refused bk c f bytes s b' u Hf Hu) as (s1 & Hc & _).
        rewrite Hc in H. inversion H. subst. contradiction.
      * destruct (alloc_via_granted bk c f bytes s q b' u Hf Hu Hq)
          as (s1 & Hc & Hs & Hb & _).
        rewrite Hc in H. injection H as E1 E2. subst q s1. exists u.
        rewrite Hb. repeat split; assumption.
    + destruct (alloc_via_usage_threw bk c f bytes s q e b' Hf Hu) as (s1 & Hc & _).
      rewrite Hc in H. discriminate H.
  - destruct (alloc_via_threw bk c f bytes s e b' Hf) as (s1 & Hc & _).
    rewrite Hc in H. discriminate H.
Qed.

(** X7. A granted [alloc] is accounted by the requested size.  When [alloc]
    (either overload) returns a pointer other than [nullptr]: the bytes
    allocated go up by exactly the requested [bytes] (not by the usable size
    the backing allocator may report for the block), the call counter by one,
    the highest usage becomes the larger of its old value and the used bytes
    the backing allocator reports right after the call, and the failure
    statistics are unchanged. *)
Theorem a_granted_alloc_is_accounted (bytes : N) (d : option DestructorPtr) (align : N)
        (s s' : Proxy B) (p : ptr) :
  alloc_overload bk bytes d align s = (Ret p, s') ->
  p <> nullptr ->
  exists u,
    backing_getUsedBytes bk (backing s') = Ret u /\
    getTotalAllocBytes (stats s') = wrap (getTotalAllocBytes (stats s) + bytes) /\
    getTotalAllocs (stats s') = wrap (getTotalAllocs (stats s) + 1) /\
    getHighestUsage (stats s') = N.max (getHighestUsage (stats s)) u /\
    u <= getHighestUsage (stats s') /\
    getTotalAllocFails (stats s') = getTotalAllocFails (stats s) /\
    getLargestAllocFailed (stats s') = getLargestAllocFailed (stats s).
Proof.
  intros H Hp.
  destruct (alloc_overload_granted_inv bytes d align s s' p H Hp) as (u & _ & Hu & Hs).
  exists u. split; [exact Hu|].
  unfold getTotalAllocBytes, getTotalAllocs, getHighestUsage, getTotalAllocFails,
    getLargestAllocFailed.
  rewrite Hs. unfold alloc_succeeded. read_members.
  repeat split. lia.
Qed.

(** X18. A failed [alloc] touches the failure statistics only.  When [alloc]
    (either overload) returns [nullptr] or throws: the [alloc] call counter
    and the [alloc] failure counter each go up by one, the largest failed
    size becomes the larger of its old value and the requested [bytes], and
    every other member, the highest usage included, is unchanged. *)
Theorem a_failed_alloc_is_accounted (bytes : N) (d : option DestructorPtr) (align : N)
        (s s' : Proxy B) (o : outcome ptr) :
  alloc_overload bk bytes d align s = (o, s') ->
  succeeded o = false ->
  getTotalAllocs (stats s') = wrap (getTotalAllocs (stats s) + 1) /\
  getTotalAllocFails (stats s') = wrap (getTotalAllocFails (stats s) + 1) /\
  getLargestAllocFailed (stats s') = N.max (getLargestAllocFailed (stats s)) bytes /\
  (forall f, f <> allocC -> f <> alloc_failC -> f <> alloc_largest_fail ->
             load f (stats s') = load f (stats s)).
Proof.
  intros H Ho.
  assert (Hs : stats s' = alloc_failed bytes (stats s)).
  { destruct (alloc_overload_cases bk bytes d align s)
      as [(p & u & Hp & Hn & _)|[_ Hs]]; rewrite H in *; cbn [fst snd] in *.
    - subst o. cbn [succeeded] in Ho. apply N.eqb_neq in Hn. rewrite Hn in Ho.
      discriminate Ho.
    - exact Hs. }
  unfold getTotalAllocs, getTotalAllocFails, getLargestAllocFailed.
  rewrite Hs. unfold alloc_failed.
  split; [read_members; reflexivity|]. split; [read_members; reflexivity|].
  split; [read_members; reflexivity|].
  intros g H1 H2 H3. rewrite load_raised, !load_added.
  destruct g; try reflexivity; exfalso; auto.
Qed.

(** The answers of the backing allocator behind a [realloc] that returned. *)
Lemma realloc_via_inv (c : Call) (f : B -> outcome ptr * B) (p : ptr) (bytes : N)
      (s s' : Proxy B) (o : outcome ptr) :
  realloc_via bk (delegate c f) p bytes s = (o, s') ->
  (succeeded o = true ->
   exists q a u, o = Ret q /\ q <> nullptr /\
     backing_getAllocSize bk p (backing s) = Ret a /\
     backing_getUsedBytes bk (backing s') = Ret u /\
     stats s' = realloc_succeeded p q bytes a u (stats s)) /\
  (succeeded o = false -> stats s' = realloc_failed bytes (stats s)).
Proof.
  intros H.
  destruct (backing_getAllocSize bk p (backing s)) as [a|e] eqn:Ha.
  - destruct (f (backing s)) as [[q|e] b'] eqn:Hf.
    + destruct (backing_getUsedBytes bk b') as [u|e] eqn:Hu.
      * destruct (N.eq_dec q nullptr) as [->|Hq].
        -- destruct (realloc_via_refused bk c f p bytes s a u b' Ha Hf Hu)
             as (s1 & Hc & Hs & _).
           rewrite Hc in H. inversion H. subst.
           split; [intros Hx; discriminate Hx|intros _; exact Hs].
        -- destruct (realloc_via_resized bk c f p bytes s a u q b' Ha Hf Hu Hq)
             as (s1 & Hc & Hs & Hb & _).
           rewrite Hc in H. injection H as E1 E2. subst o s1.
           split.
           ++ intros _. exists q, a, u. rewrite Hb. repeat split; assumption.
           ++ cbn [succeeded]. apply N.eqb_neq in Hq. rewrite Hq.
              intros Hx. discriminate Hx.
      * destruct (realloc_via_usage_threw bk c f p bytes s a q e b' Ha Hf Hu)
          as (s1 & Hc & Hs & _).
        rewrite Hc in H. inversion H. subst.
        split; [intros Hx; discriminate Hx|intros _; exact Hs].
    + destruct (realloc_via_threw bk c f p bytes s a e b' Ha Hf) as (s1 & Hc & Hs & _).
      rewrite Hc in H. inversion H. subst.
      split; [intros Hx; discriminate Hx|intros _; exact Hs].
  - destruct (realloc_via_size_threw bk c f p bytes s e Ha) as (s1 & Hc & Hs & _).
    rewrite Hc in H. inversion H. subst.
    split; [intros Hx; discriminate Hx|intros _; exact Hs].
Qed.

(** X8. A successful [realloc] counts as a new allocation of the requested
    size.  When [realloc] (either overload) returns a pointer other than
    [nullptr], whether or not the block moved: the bytes allocated go up by
    the whole requested [bytes] (not by the growth), the largest and smallest
    allocation take [bytes] into account, the highest usage becomes the
    larger of its old value and the used bytes reported right after the call,
    the [realloc] call counter goes up by one, and the failure statistics and
    the [alloc] call counter are unchanged. *)
Theorem a_successful_realloc_counts_as_an_allocation (p : ptr) (bytes : N)
        (d : option DestructorPtr) (align : N) (s s' : Proxy B) (q : ptr) :
  realloc_overload bk p bytes d align s = (Ret q, s') ->
  q <> nullptr ->
  exists u,
    backing_getUsedBytes bk (backing s') = Ret u /\
    getTotalAllocBytes (stats s') = wrap (getTotalAllocBytes (stats s) + bytes) /\
    getLargestAlloc (stats s') = N.max (getLargestAlloc (stats s)) bytes /\
    load smallest (stats s') = N.min (load smallest (stats s)) bytes /\
    getHighestUsage (stats s') = N.max (getHighestUsage (stats s)) u /\
    getTotalReallocs (stats s') = wrap (getTotalReallocs (stats s) + 1) /\
    getTotalReallocFails (stats s') = getTotalReallocFails (stats s) /\
    getLargestAllocFailed (stats s') = getLargestAllocFailed (stats s) /\
    getTotalAllocs (stats s') = getTotalAllocs (stats s).
Proof.
  intros H Hq.
  destruct (realloc_overload_via p bytes d align) as (c & f & Hc).
  rewrite Hc in H. clear Hc.
  destruct (realloc_via_inv c f p bytes s s' (Ret q) H) as [Hok _].
  destruct Hok as (q' & a & u & Ho & _ & _ & Hu & Hs).
  { cbn [succeeded]. apply N.eqb_neq in Hq. rewrite Hq. reflexivity. }
  inversion Ho. subst q'.
  exists u. split; [exact Hu|].
  unfold getTotalAllocBytes, getLargestAlloc, getHighestUsage, getTotalReallocs,
    getTotalReallocFails, getLargestAllocFailed, getTotalAllocs.
  rewrite Hs. unfold realloc_succeeded.
  destruct (negb (q =? p)); (destruct (bytes <? a); [|destruct (a <? bytes)]);
    read_members; repeat split.
Qed.

(** X9. A failed [realloc] touches the failure statistics only.  When [realloc]
    (either overload) returns [nullptr] or throws: the [realloc] call counter
    and the [realloc] failure counter each go up by one, the largest failed
    size, which [alloc] failures share, becomes the larger of its old value
    and the requested [bytes], and every other member is unchanged. *)
Theorem a_failed_realloc_is_accounted (p : ptr) (bytes : N)
        (d : option DestructorPtr) (align : N) (s s' : Proxy B) (o : outcome ptr) :
  realloc_overload bk p bytes d align s = (o, s') ->
  succeeded o = false ->
  getTotalReallocs (stats s') = wrap (getTotalReallocs (stats s) + 1) /\
  getTotalReallocFails (stats s') = wrap (getTotalReallocFails (stats s) + 1) /\
  getLargestAllocFailed (stats s') = N.max (getLargestAllocFailed (stats s)) bytes /\
  (forall f, f <> reallocC -> f <> realloc_failC -> f <> alloc_largest_fail ->
             load f (stats s') = load f (stats s)).
Proof.
  intros H Ho.
  destruct (realloc_overload_via p bytes d align) as (c & f & Hc).
  rewrite Hc in H. clear Hc.
  destruct (realloc_via_inv c f p bytes s s' o H) as [_ Hfail].
  specialize (Hfail Ho).
  unfold getTotalReallocs, getTotalReallocFails, getLargestAllocFailed.
  rewrite Hfail. unfold realloc_failed.
  split; [read_members; reflexivity|]. split; [read_members; reflexivity|].
  split; [read_members; reflexivity|].
  intros g H1 H2 H3. rewrite load_raised, !load_added.
  destruct g; try reflexivity; exfalso; auto.
Qed.

(** X10. When the size query throws, neither [realloc] nor [offer] reaches the
    backing allocator.  If [getAllocSize(ptr)] throws, [realloc] (either
    overload) and [offer] throw the same exception having made that one query
    and no other call, so the backing allocator is as it was; the call is
    counted, [realloc] also counts a failure, and [offer] adds no offered
    bytes. *)
Theorem a_throwing_size_query_stops_realloc_and_offer (p : ptr) (bytes : N)
        (d : option DestructorPtr) (align priority : N) (s : Proxy B) (e : exception) :
  backing_getAllocSize bk p (backing s) = Raise e ->
  (fst (realloc_overload bk p bytes d align s) = Raise e /\
   backing (effect (realloc_overload bk p bytes d align) s) = backing s /\
   calls (effect (realloc_overload bk p bytes d align) s) = calls s ++ [CallGetAllocSize p] /\
   stats (effect (realloc_overload bk p bytes d align) s) = realloc_failed bytes (stats s)) /\
  (fst (offer bk p priority s) = Raise e /\
   backing (effect (offer bk p priority) s) = backing s /\
   calls (effect (offer bk p priority) s) = calls s ++ [CallGetAllocSize p] /\
   getTotalOffers (stats (effect (offer bk p priority) s))
     = wrap (getTotalOffers (stats s) + 1) /\
   getTotalOfferBytes (stats (effect (offer bk p priority) s))
     = getTotalOfferBytes (stats s)).
Proof.
  intros Ha. split.
  - destruct (realloc_overload_via p bytes d align) as (c & f & Hc). rewrite Hc.
    destruct (realloc_via_size_threw bk c f p bytes s e Ha) as (s1 & H1 & Hs & Hb & Hl & _).
    unfold effect. rewrite H1. cbn [fst snd]. repeat split; assumption.
  - destruct (offer_size_threw bk p priority s e Ha) as (s1 & H1 & Hs & Hb & Hl & _).
    unfold effect, getTotalOffers, getTotalOfferBytes. rewrite H1. cbn [fst snd].
    rewrite Hs. read_members. repeat split; assumption.
Qed.

(** X11. A granted block is lost to the caller when the usage query throws.  If
    the backing allocator grants the allocation and [getUsedBytes()] then
    throws, [alloc] (either overload) throws that exception instead of
    returning the pointer: the backing allocator holds the new block, and the
    call is counted as a failure, with no bytes allocated. *)
Theorem alloc_drops_the_pointer_when_the_usage_query_throws (bytes : N)
        (d : option DestructorPtr) (align : N) (s : Proxy B) (p : ptr) (b' : B)
        (e : exception) :
  backing_alloc_overload bk bytes d align (backing s) = (Ret p, b') ->
  backing_getUsedBytes bk b' = Raise e ->
  fst (alloc_overload bk bytes d align s) = Raise e /\
  backing (effect (alloc_overload bk bytes d align) s) = b' /\
  getTotalAllocFails (stats (effect (alloc_overload bk bytes d align) s))
    = wrap (getTotalAllocFails (stats s) + 1) /\
  getLargestAllocFailed (stats (effect (alloc_overload bk bytes d align) s))
    = N.max (getLargestAllocFailed (stats s)) bytes /\
  getTotalAllocBytes (stats (effect (alloc_overload bk bytes d align) s))
    = getTotalAllocBytes (stats s).
Proof.
  intros Hf Hu.
  destruct (alloc_overload_via bytes d align) as [c Hc]. rewrite Hc.
  destruct (alloc_via_usage_threw bk c _ bytes s p e b' Hf Hu)
    as (s1 & H1 & Hs & Hb & _).
  unfold effect, getTotalAllocFails, getLargestAllocFailed, getTotalAllocBytes.
  rewrite H1. cbn [fst snd]. rewrite Hs. unfold alloc_failed. read_members.
  repeat split. exact Hb.
Qed.

(** X12. [offer] counts what it is given, whatever becomes of it.  When the size
    query returns [a], [offer] gives its caller exactly what the backing
    allocator's [offer] gives (an offer pointer, [nullptr] when the block was
    discarded at once, or an exception), and in every one of these cases the
    offer counter has gone up by one and the offered bytes by [a], the size
    reported before the block was offered. *)
Theorem offer_counts_what_it_is_given (p : ptr) (priority : N) (s : Proxy B) (a : N)
        (o : outcome ptr) (b' : B) :
  backing_getAllocSize bk p (backing s) = Ret a ->
  backing_offer bk p priority (backing s) = (o, b') ->
  fst (offer bk p priority s) = o /\
  backing (effect (offer bk p priority) s) = b' /\
  getTotalOffers (stats (effect (offer bk p priority) s))
    = wrap (getTotalOffers (stats s) + 1) /\
  getTotalOfferBytes (stats (effect (offer bk p priority) s))
    = wrap (getTotalOfferBytes (stats s) + a).
Proof.
  intros Ha Ho.
  destruct (offer_delegated bk p priority s a o b' Ha Ho) as (s1 & H1 & Hs & Hb & _).
  unfold effect, getTotalOffers, getTotalOfferBytes. rewrite H1. cbn [fst snd].
  rewrite Hs. read_members. repeat split. exact Hb.
Qed.

(** X13. A reclaimed block is lost to the caller when the size query throws.  If
    the backing allocator gives the block back and [getAllocSize] then throws
    for the pointer [reclaim] was called with, [reclaim] throws that
    exception instead of returning the block: the backing allocator has
    reclaimed it, the reclaim is counted, and neither the failure counter nor
    the reclaimed bytes change. *)
Theorem reclaim_drops_the_block_when_the_size_query_throws (p : ptr) (s : Proxy B)
        (q : ptr) (b' : B) (e : exception) :
  backing_reclaim bk p (backing s) = (Ret q, b') ->
  q <> nullptr ->
  backing_getAllocSize bk p b' = Raise e ->
  fst (reclaim bk p s) = Raise e /\
  backing (effect (reclaim bk p) s) = b' /\
  getTotalReclaims (stats (effect (reclaim bk p) s)) = wrap (getTotalReclaims (stats s) + 1) /\
  getTotalReclaimFails (stats (effect (reclaim bk p) s)) = getTotalReclaimFails (stats s) /\
  getTotalReclaimBytes (stats (effect (reclaim bk p) s)) = getTotalReclaimBytes (stats s).
Proof.
  intros Hr Hq Ha.
  destruct (reclaim_size_threw bk p s q e b' Hr Hq Ha) as (s1 & H1 & Hs & Hb & _).
  unfold effect, getTotalReclaims, getTotalReclaimFails, getTotalReclaimBytes.
  rewrite H1. cbn [fst snd]. rewrite Hs. read_members. repeat split. exact Hb.
Qed.

End Accounting.


(** * BasicAllocator: the alignment helpers *)

Lemma modulus_pow : modulus = 2 ^ 64.
Proof. reflexivity. Qed.

Lemma wrap_plus_modulus (x : N) : x < modulus -> wrap (x + modulus) = x.
Proof.
  intros Hx. unfold wrap.
  replace (x + modulus) with (x + 1 * modulus) by lia.
  rewrite N.Div0.mod_add. apply N.mod_small. exact Hx.
Qed.

Lemma minus_small (a b : N) : b <= a -> a < modulus -> minus a b = a - b.
Proof.
  intros Hb Ha. unfold minus.
  assert (Hb' : b <= SIZE_MAX) by (unfold SIZE_MAX, modulus in *; lia).
  rewrite (wrap_small b Hb').
  replace (a + (modulus - b)) with ((a - b) + modulus) by (unfold modulus in *; lia).
  apply wrap_plus_modulus. lia.
Qed.

Lemma power_of_two_range (k : N) : k < 64 -> 0 < 2 ^ k /\ 2 ^ k < modulus.
Proof.
  intros Hk. split.
  - apply N.neq_0_lt_0. apply N.pow_nonzero. discriminate.
  - rewrite modulus_pow. apply N.pow_lt_mono_r; [reflexivity|exact Hk].
Qed.

Lemma power_of_two_divides_modulus (k : N) : k < 64 -> modulus mod 2 ^ k = 0.
Proof.
  intros Hk. rewrite modulus_pow.
  replace 64 with ((64 - k) + k) by lia.
  rewrite N.pow_add_r. apply N.Div0.mod_mul.
Qed.

(** The offset, for an alignment that is a power of two, in plain
    arithmetic. *)
Lemma getAlignedOffset_pow2 (p : ptr) (k : N) :
  k < 64 ->
  getAlignedOffset p (2 ^ k) = (2 ^ k - p mod 2 ^ k) mod 2 ^ k.
Proof.
  intros Hk. destruct (power_of_two_range k Hk) as [Hpos Hlt].
  unfold getAlignedOffset.
  assert (H1 : minus (2 ^ k) 1 = N.ones k).
  { rewrite minus_small by lia. rewrite N.ones_equiv. lia. }
  rewrite H1, !N.land_ones.
  assert (Hr : p mod 2 ^ k < 2 ^ k) by (apply N.mod_lt; lia).
  rewrite minus_small by lia. reflexivity.
Qed.

(** Rounding up to a multiple of [a], in plain arithmetic. *)
Lemma round_up_offset (p a : N) :
  0 < a ->
  let off := (a - p mod a) mod a in
  off < a /\ (p + off) mod a = 0 /\ (forall d, (p + d) mod a = 0 -> off <= d).
Proof.
  intros Ha off. subst off.
  assert (Hr : p mod a < a) by (apply N.mod_lt; lia).
  pose proof (N.div_mod p a ltac:(lia)) as Hp.
  set (r := p mod a) in *. set (q := p / a) in *.
  clearbody r q. subst p.
  destruct (N.eq_dec r 0) as [E|E].
  - subst r. rewrite N.sub_0_r, N.Div0.mod_same, !N.add_0_r.
    split; [exact Ha|]. split.
    + rewrite N.mul_comm. apply N.Div0.mod_mul.
    + intros d _. apply N.le_0_l.
  - assert (Hs : a - r < a) by lia.
    rewrite (N.mod_small (a - r) a Hs).
    split; [exact Hs|]. split.
    + replace (a * q + r + (a - r)) with ((q + 1) * a) by lia.
      apply N.Div0.mod_mul.
    + intros d Hd.
      destruct (N.le_gt_cases (a - r) d) as [Hle|Hgt]; [exact Hle|].
      exfalso.
      replace (a * q + r + d) with ((r + d) + q * a) in Hd by lia.
      rewrite N.Div0.mod_add in Hd.
      rewrite N.mod_small in Hd by lia. lia.
Qed.

Lemma aligning_offset (p : ptr) (alignment k : N) :
  alignment = 2 ^ k ->
  k < 64 ->
  getAlignedOffset p alignment < alignment /\
  (p + getAlignedOffset p alignment) mod alignment = 0 /\
  (forall d, (p + d) mod alignment = 0 -> getAlignedOffset p alignment <= d).
Proof.
  intros -> Hk. rewrite (getAlignedOffset_pow2 p k Hk).
  apply round_up_offset. apply (power_of_two_range k Hk).
Qed.

(** Address plus offset is at most 2^64, itself a multiple of the
    alignment. *)
Lemma aligned_sum_bound (p : ptr) (alignment k : N) :
  alignment = 2 ^ k ->
  k < 64 ->
  p <= SIZE_MAX ->
  p + getAlignedOffset p alignment <= modulus.
Proof.
  intros Ha Hk Hp.
  destruct (aligning_offset p alignment k Ha Hk) as (_ & _ & Hmin).
  assert (H : getAlignedOffset p alignment <= modulus - p).
  { apply Hmin. replace (p + (modulus - p)) with modulus
      by (unfold SIZE_MAX, modulus in *; lia).
    subst alignment. apply power_of_two_divides_modulus. exact Hk. }
  unfold SIZE_MAX, modulus in *. lia.
Qed.

Lemma getAlignedPtr_is_aligned (p : ptr) (alignment k : N) :
  alignment = 2 ^ k ->
  k < 64 ->
  p <= SIZE_MAX ->
  getAlignedPtr p alignment mod alignment = 0.
Proof.
  intros Ha Hk Hp.
  destruct (aligning_offset p alignment k Ha Hk) as (_ & Hal & _).
  pose proof (aligned_sum_bound p alignment k Ha Hk Hp) as Hbound.
  unfold getAlignedPtr.
  destruct (N.le_gt_cases (p + getAlignedOffset p alignment) SIZE_MAX) as [Hfit|Hover].
  - rewrite (wrap_small _ Hfit). exact Hal.
  - assert (E : p + getAlignedOffset p alignment = modulus)
      by (unfold SIZE_MAX, modulus in *; lia).
    rewrite E. unfold wrap. rewrite N.Div0.mod_same. apply N.Div0.mod_0_l.
Qed.

(** X14. [getAlignedOffset] gives the least offset that aligns.  For an alignment
    that is a power of two (up to 2^63) the offset is below the alignment,
    adding it to the address gives a multiple of the alignment, and no
    smaller offset does. *)
Theorem getAlignedOffset_is_the_least_aligning_offset (p : ptr) (alignment k : N) :
  alignment = 2 ^ k ->
  k < 64 ->
  getAlignedOffset p alignment < alignment /\
  (p + getAlignedOffset p alignment) mod alignment = 0 /\
  (forall d, (p + d) mod alignment = 0 -> getAlignedOffset p alignment <= d).
Proof.
  intros -> Hk. rewrite (getAlignedOffset_pow2 p k Hk).
  apply round_up_offset. apply (power_of_two_range k Hk).
Qed.

(** X15. [getAlignedPtr] rounds an address up, or wraps to null.  For an
    alignment that is a power of two and an address of the 64-bit address
    space, the result is a multiple of the alignment; when address plus
    offset fits in 64 bits it is the least aligned address at or above [ptr],
    less than [alignment] beyond it; otherwise (no aligned address is left at
    or above [ptr]) the sum wraps around and the result is [nullptr]. *)
Theorem getAlignedPtr_rounds_up_or_wraps_to_null (p : ptr) (alignment k : N) :
  alignment = 2 ^ k ->
  k < 64 ->
  p <= SIZE_MAX ->
  getAlignedPtr p alignment mod alignment = 0 /\
  (p + getAlignedOffset p alignment <= SIZE_MAX ->
   p <= getAlignedPtr p alignment /\
   getAlignedPtr p alignment < p + alignment /\
   (forall q, p <= q -> q mod alignment = 0 -> getAlignedPtr p alignment <= q)) /\
  (SIZE_MAX < p + getAlignedOffset p alignment ->
   getAlignedPtr p alignment = nullptr).
Proof.
  intros Ha Hk Hp.
  destruct (aligning_offset p alignment k Ha Hk) as (Hlt & Hal & Hmin).
  pose proof (aligned_sum_bound p alignment k Ha Hk Hp) as Hbound.
  split; [apply (getAlignedPtr_is_aligned p alignment k Ha Hk Hp)|].
  unfold getAlignedPtr. split.
  - intros Hfit. rewrite (wrap_small _ Hfit).
    split; [lia|]. split; [lia|].
    intros q Hq Hqa.
    assert (H : getAlignedOffset p alignment <= q - p).
    { apply Hmin. replace (p + (q - p)) with q by lia. exact Hqa. }
    lia.
  - intros Hover.
    assert (E : p + getAlignedOffset p alignment = modulus)
      by (unfold SIZE_MAX, modulus in *; lia).
    rewrite E. unfold wrap. apply N.Div0.mod_same.
Qed.

(** X16. An aligned address is left where it is, and aligning twice is aligning
    once: for a power-of-two alignment and an address of the 64-bit address
    space, [getAlignedOffset] is 0 exactly on the multiples of the alignment,
    [getAlignedPtr] returns such an address unchanged, and applying
    [getAlignedPtr] to its own result changes nothing. *)
Theorem getAlignedPtr_keeps_aligned_addresses (p : ptr) (alignment k : N) :
  alignment = 2 ^ k ->
  k < 64 ->
  p <= SIZE_MAX ->
  (getAlignedOffset p alignment = 0 <-> p mod alignment = 0) /\
  (p mod alignment = 0 -> getAlignedPtr p alignment = p) /\
  getAlignedPtr (getAlignedPtr p alignment) alignment = getAlignedPtr p alignment.
Proof.
  intros Ha Hk Hp.
  assert (Hfix : forall q, q <= SIZE_MAX -> q mod alignment = 0 ->
                           getAlignedOffset q alignment = 0 /\ getAlignedPtr q alignment = q).
  { intros q Hq Hqa.
    destruct (aligning_offset q alignment k Ha Hk) as (_ & _ & Hmin).
    assert (H0 : getAlignedOffset q alignment = 0).
    { specialize (Hmin 0). rewrite N.add_0_r in Hmin. specialize (Hmin Hqa). lia. }
    split; [exact H0|].
    unfold getAlignedPtr. rewrite H0, N.add_0_r. apply wrap_small. exact Hq. }
  split; [|split].
  - split.
    + intros H0.
      destruct (aligning_offset p alignment k Ha Hk) as (_ & Hal & _).
      rewrite H0, N.add_0_r in Hal. exact Hal.
    + intros Hpa. apply (Hfix p Hp Hpa).
  - intros Hpa. apply (Hfix p Hp Hpa).
  - apply Hfix.
    + unfold getAlignedPtr. apply wrap_le.
    + apply (getAlignedPtr_is_aligned p alignment k Ha Hk Hp).
Qed.

(** * The further properties on concrete runs *)

Import Trial.

Lemma failures_never_outnumber_calls_witness :
  wrapped (run P workload (AllocatorStatistic (Pool.empty 1024))) = false /\
  getTotalAllocFails (stats (run P workload (AllocatorStatistic (Pool.empty 1024))))
    <= getTotalAllocs (stats (run P workload (AllocatorStatistic (Pool.empty 1024)))).
Proof.
  split; [vm_compute; reflexivity|].
  apply (failures_never_outnumber_calls P workload (Pool.empty 1024)).
  vm_compute. reflexivity.
Defined.

Lemma size_statistics_agree_witness :
  wrapped (run P workload (AllocatorStatistic (Pool.empty 1024))) = false /\
  getSmallestAlloc (stats (run P workload (AllocatorStatistic (Pool.empty 1024))))
    <= getLargestAlloc (stats (run P workload (AllocatorStatistic (Pool.empty 1024)))).
Proof.
  split; [vm_compute; reflexivity|].
  apply (size_statistics_agree P workload (Pool.empty 1024)).
  vm_compute. reflexivity.
Defined.

Lemma statistics_of_one_outcome_only_witness :
  wrapped (run P [OpAlloc 2000 None 16; OpRealloc 4096 8 None 16]
               (AllocatorStatistic (Pool.empty 1024))) = false /\
  getTotalAllocBytes
    (stats (run P [OpAlloc 2000 None 16; OpRealloc 4096 8 None 16]
                (AllocatorStatistic (Pool.empty 1024)))) = 0.
Proof.
  split; [vm_compute; reflexivity|].
  apply (statistics_of_one_outcome_only P [OpAlloc 2000 None 16; OpRealloc 4096 8 None 16]
           (Pool.empty 1024)); vm_compute; reflexivity.
Defined.

Lemma call_counters_count_the_calls_witness :
  stats after_reset = zeroed /\
  forallb (fun op => negb (resets op)) workload = true /\
  getTotalAllocs (stats (run P workload after_reset)) = wrap (count_calls allocC workload) /\
  count_calls allocC workload = 3.
Proof.
  split; [vm_compute; reflexivity|]. split; [vm_compute; reflexivity|].
  split; [|vm_compute; reflexivity].
  apply (call_counters_count_the_calls P after_reset workload); vm_compute; reflexivity.
Defined.

Lemma a_call_writes_only_its_own_members_witness :
  touches (OpAlloc 8 None 16) reallocC = false /\
  load reallocC (stats (exec P (OpAlloc 8 None 16) one_block))
    = load reallocC (stats one_block).
Proof.
  split; [reflexivity|].
  apply (a_call_writes_only_its_own_members P (OpAlloc 8 None 16) reallocC one_block).
  reflexivity.
Defined.

Lemma the_proxy_is_transparent_witness :
  (forall q b, exists v, backing_getAllocSize P q b = Ret v) /\
  (forall b, exists u, backing_getUsedBytes P b = Ret u) /\
  answers P workload new_proxy = direct_answers P workload (Pool.empty 1024).
Proof.
  assert (Hsize : forall q b, exists v, backing_getAllocSize P q b = Ret v).
  { intros q b. simpl. unfold Pool.pool_getAllocSize.
    destruct (Pool.lookup q (Pool.blocks b)) as [size|]; eexists; reflexivity. }
  assert (Hused : forall b, exists u, backing_getUsedBytes P b = Ret u).
  { intros b. eexists. reflexivity. }
  split; [exact Hsize|]. split; [exact Hused|].
  apply (the_proxy_is_transparent P workload new_proxy Hsize Hused).
Defined.

Lemma a_granted_alloc_is_accounted_witness :
  alloc_overload P 64 None 16 new_proxy = (Ret 4096, one_block) /\
  4096 <> nullptr /\
  exists u,
    backing_getUsedBytes P (backing one_block) = Ret u /\
    getTotalAllocBytes (stats one_block) = wrap (getTotalAllocBytes (stats new_proxy) + 64).
Proof.
  split; [vm_compute; reflexivity|]. split; [discriminate|].
  destruct (a_granted_alloc_is_accounted P 64 None 16 new_proxy one_block 4096)
    as (u & Hu & Hb & _); [vm_compute; reflexivity|discriminate|].
  exists u. split; [exact Hu|exact Hb].
Defined.

Lemma a_failed_alloc_is_accounted_witness :
  alloc_overload P 2000 None 16 one_block
    = (Ret nullptr, effect (alloc_overload P 2000 None 16) one_block) /\
  succeeded (Ret nullptr) = false /\
  getTotalAllocFails (stats (effect (alloc_overload P 2000 None 16) one_block))
    = wrap (getTotalAllocFails (stats one_block) + 1) /\
  load highest (stats (effect (alloc_overload P 2000 None 16) one_block))
    = load highest (stats one_block).
Proof.
  split; [vm_compute; reflexivity|]. split; [reflexivity|].
  destruct (a_failed_alloc_is_accounted P 2000 None 16 one_block
              (effect (alloc_overload P 2000 None 16) one_block) (Ret nullptr))
    as (_ & Hf & _ & Hframe); [vm_compute; reflexivity|reflexivity|].
  split; [exact Hf|]. apply Hframe; discriminate.
Defined.

Lemma a_successful_realloc_counts_as_an_allocation_witness :
  realloc_overload P 4096 128 None 16 one_block
    = (Ret 4112, effect (realloc_overload P 4096 128 None 16) one_block) /\
  4112 <> nullptr /\
  getTotalAllocBytes (stats (effect (realloc_overload P 4096 128 None 16) one_block))
    = wrap (getTotalAllocBytes (stats one_block) + 128).
Proof.
  split; [vm_compute; reflexivity|]. split; [discriminate|].
  destruct (a_successful_realloc_counts_as_an_allocation P 4096 128 None 16 one_block
              (effect (realloc_overload P 4096 128 None 16) one_block) 4112)
    as (u & _ & Hb & _); [vm_compute; reflexivity|discriminate|].
  exact Hb.
Defined.

Lemma a_failed_realloc_is_accounted_witness :
  realloc_overload P 4096 5000 None 16 one_block
    = (Ret nullptr, effect (realloc_overload P 4096 5000 None 16) one_block) /\
  succeeded (Ret nullptr) = false /\
  getTotalReallocFails (stats (effect (realloc_overload P 4096 5000 None 16) one_block))
    = wrap (getTotalReallocFails (stats one_block) + 1) /\
  getLargestAllocFailed (stats (effect (realloc_overload P 4096 5000 None 16) one_block))
    = N.max (getLargestAllocFailed (stats one_block)) 5000.
Proof.
  split; [vm_compute; reflexivity|]. split; [reflexivity|].
  destruct (a_failed_realloc_is_accounted P 4096 5000 None 16 one_block
              (effect (realloc_overload P 4096 5000 None 16) one_block) (Ret nullptr))
    as (_ & Hf & Hl & _); [vm_compute; reflexivity|reflexivity|].
  split; [exact Hf|exact Hl].
Defined.

Lemma a_throwing_size_query_stops_realloc_and_offer_witness :
  backing_getAllocSize Q 1234 (backing brittle_proxy) = Raise Pool.invalid_argument /\
  fst (realloc_overload Q 1234 32 None 16 brittle_proxy) = Raise Pool.invalid_argument /\
  calls (effect (realloc_overload Q 1234 32 None 16) brittle_proxy)
    = calls brittle_proxy ++ [CallGetAllocSize 1234] /\
  fst (offer Q 1234 0 brittle_proxy) = Raise Pool.invalid_argument.
Proof.
  split; [vm_compute; reflexivity|].
  destruct (a_throwing_size_query_stops_realloc_and_offer Q 1234 32 None 16 0
              brittle_proxy Pool.invalid_argument)
    as ((Hr & _ & Hc & _) & (Ho & _)); [vm_compute; reflexivity|].
  split; [exact Hr|]. split; [exact Hc|exact Ho].
Defined.

Lemma alloc_drops_the_pointer_when_the_usage_query_throws_witness :
  backing_alloc_overload Q 64 None 16 (backing brittle_proxy)
    = (Ret 4096, backing brittle_block) /\
  backing_getUsedBytes Q (backing brittle_block) = Raise Brittle.unsupported /\
  fst (alloc_overload Q 64 None 16 brittle_proxy) = Raise Brittle.unsupported /\
  getTotalAllocFails (stats (effect (alloc_overload Q 64 None 16) brittle_proxy))
    = wrap (getTotalAllocFails (stats brittle_proxy) + 1).
Proof.
  split; [vm_compute; reflexivity|]. split; [vm_compute; reflexivity|].
  destruct (alloc_drops_the_pointer_when_the_usage_query_throws Q 64 None 16
              brittle_proxy 4096 (backing brittle_block) Brittle.unsupported)
    as (Hr & _ & Hf & _); [vm_compute; reflexivity|vm_compute; reflexivity|].
  split; [exact Hr|exact Hf].
Defined.

Lemma offer_counts_what_it_is_given_witness :
  backing_getAllocSize P 4096 (backing one_block) = Ret 64 /\
  backing_offer P 4096 0 (backing one_block) = (Ret 4097, backing offered) /\
  fst (offer P 4096 0 one_block) = Ret 4097 /\
  getTotalOfferBytes (stats (effect (offer P 4096 0) one_block))
    = wrap (getTotalOfferBytes (stats one_block) + 64).
Proof.
  split; [vm_compute; reflexivity|]. split; [vm_compute; reflexivity|].
  destruct (offer_counts_what_it_is_given P 4096 0 one_block 64 (Ret 4097)
              (backing offered))
    as (Hr & _ & _ & Hb); [vm_compute; reflexivity|vm_compute; reflexivity|].
  split; [exact Hr|exact Hb].
Defined.

Lemma reclaim_drops_the_block_when_the_size_query_throws_witness :
  backing_reclaim Q 4097 (backing brittle_offered)
    = (Ret 4096, backing (effect (reclaim Q 4097) brittle_offered)) /\
  4096 <> nullptr /\
  backing_getAllocSize Q 4097 (backing (effect (reclaim Q 4097) brittle_offered))
    = Raise Pool.invalid_argument /\
  fst (reclaim Q 4097 brittle_offered) = Raise Pool.invalid_argument /\
  getTotalReclaimBytes (stats (effect (reclaim Q 4097) brittle_offered))
    = getTotalReclaimBytes (stats brittle_offered).
Proof.
  split; [vm_compute; reflexivity|]. split; [discriminate|].
  split; [vm_compute; reflexivity|].
  destruct (reclaim_drops_the_block_when_the_size_query_throws Q 4097 brittle_offered
              4096 (backing (effect (reclaim Q 4097) brittle_offered))
              Pool.invalid_argument)
    as (Hr & _ & _ & _ & Hb);
    [vm_compute; reflexivity|discriminate|vm_compute; reflexivity|].
  split; [exact Hr|exact Hb].
Defined.

Lemma getAlignedOffset_is_the_least_aligning_offset_witness :
  16 = 2 ^ 4 /\ 4 < 64 /\
  getAlignedOffset 4097 16 = 15 /\
  getAlignedOffset 4097 16 < 16 /\
  (4097 + getAlignedOffset 4097 16) mod 16 = 0.
Proof.
  split; [reflexivity|]. split; [reflexivity|]. split; [reflexivity|].
  destruct (getAlignedOffset_is_the_least_aligning_offset 4097 16 4)
    as (Hlt & Hal & _); [reflexivity|reflexivity|].
  split; [exact Hlt|exact Hal].
Defined.

Lemma getAlignedPtr_rounds_up_or_wraps_to_null_witness :
  16 = 2 ^ 4 /\ 4 < 64 /\ 18446744073709551609 <= SIZE_MAX /\
  SIZE_MAX < 18446744073709551609 + getAlignedOffset 18446744073709551609 16 /\
  getAlignedPtr 18446744073709551609 16 = nullptr.
Proof.
  split; [reflexivity|]. split; [reflexivity|].
  split; [vm_compute; discriminate|]. split; [vm_compute; reflexivity|].
  destruct (getAlignedPtr_rounds_up_or_wraps_to_null 18446744073709551609 16 4)
    as (_ & _ & Hnull); [reflexivity|reflexivity|vm_compute; discriminate|].
  apply Hnull. vm_compute. reflexivity.
Defined.

Lemma getAlignedPtr_keeps_aligned_addresses_witness :
  16 = 2 ^ 4 /\ 4 < 64 /\ 4097 <= SIZE_MAX /\
  getAlignedPtr 4097 16 = 4112 /\
  getAlignedPtr (getAlignedPtr 4097 16) 16 = getAlignedPtr 4097 16.
Proof.
  split; [reflexivity|]. split; [reflexivity|]. split; [vm_compute; discriminate|].
  split; [vm_compute; reflexivity|].
  apply (getAlignedPtr_keeps_aligned_addresses 4097 16 4);
    [reflexivity|reflexivity|vm_compute; discriminate].
Defined.
